(** * Store/document lifecycle manager and citation extractor

    A shallow embedding of the orchestration code of [src/app.py] (the
    Streamlit front end over the Gemini File Search API) and of the
    upload endpoint of [src/backend/main.py], together with the
    properties of that code which the specification states.

    Python objects are duck typed, so responses of the remote service are
    embedded as values of a small universe [pyval] whose attributes may be
    missing; exceptions are explicit; code that mutates state or talks to
    the remote service is written in a state-and-exception monad. *)

From Stdlib Require Import Ascii String QArith Qminmax Lqa.
From stdpp Require Import gmap strings list fin_maps sorting pretty.

Set Warnings "-register-all".
#[local] Open Scope string_scope.
#[local] Open Scope list_scope.

(** ** Python values, exceptions and the primitives the code uses *)

Module Py.

(** The run-time values that reach the orchestration code.  An object
    is the bag of attributes it carries, in definition order. *)
Inductive pyval : Type :=
| PNone
| PBool (b : bool)
| PInt (z : Z)
| PStr (s : string)
| PList (items : list pyval)
| PObj (attrs : list (string * pyval)).

(** The exceptions (all subclasses of [Exception]) that the embedded
    code can meet or raise. *)
Inductive exn : Type :=
| AttributeError (name : string)
| IndexError
| TypeError
| ZeroDivisionError
| OSError (msg : string)
| RemoteError (msg : string)
| HTTPException (status_code : Z) (detail : string).

Inductive result (A : Type) : Type :=
| Ok (a : A)
| Raise (e : exn).
Arguments Ok {A} a.
Arguments Raise {A} e.

Definition is_ok {A} (r : result A) : bool :=
  match r with Ok _ => true | Raise _ => false end.

(** Attribute lookup in an attribute bag: the first binding wins.  Only
    objects carry the attributes the embedded code asks for ([candidates],
    [uri], [done], ...); [None], numbers, strings and lists have none of
    them. *)
Fixpoint assoc (name : string) (attrs : list (string * pyval)) : option pyval :=
  match attrs with
  | [] => None
  | (k, v) :: rest => if String.eqb k name then Some v else assoc name rest
  end.

Definition attr_of (v : pyval) (name : string) : option pyval :=
  match v with
  | PObj attrs => assoc name attrs
  | _ => None
  end.

(** [hasattr(v, name)] *)
Definition hasattr (v : pyval) (name : string) : bool :=
  match attr_of v name with Some _ => true | None => false end.

(** [v.name]: raises [AttributeError] when the attribute is missing. *)
Definition getattr (v : pyval) (name : string) : result pyval :=
  match attr_of v name with
  | Some x => Ok x
  | None => Raise (AttributeError name)
  end.

(** [getattr(v, name, default)] *)
Definition getattr_default (v : pyval) (name : string) (default : pyval) : pyval :=
  match attr_of v name with
  | Some x => x
  | None => default
  end.

(** Truth value testing: [None], [False], zero and empty sequences are
    false, every other value (plain objects included) is true. *)
Definition truthy (v : pyval) : bool :=
  match v with
  | PNone => false
  | PBool b => b
  | PInt z => negb (z =? 0)%Z
  | PStr s => negb (String.eqb s "")
  | PList items => match items with [] => false | _ => true end
  | PObj _ => true
  end.

(** The one-character strings of a string, in order. *)
Fixpoint chars (s : string) : list pyval :=
  match s with
  | EmptyString => []
  | String c rest => PStr (String c EmptyString) :: chars rest
  end.

(** Iteration ([for x in v]): lists and strings are iterable. *)
Definition iter (v : pyval) : result (list pyval) :=
  match v with
  | PList items => Ok items
  | PStr s => Ok (chars s)
  | _ => Raise TypeError
  end.

(** [v[0]] *)
Definition index0 (v : pyval) : result pyval :=
  match v with
  | PList (x :: _) => Ok x
  | PList [] => Raise IndexError
  | PStr (String c _) => Ok (PStr (String c EmptyString))
  | PStr EmptyString => Raise IndexError
  | _ => Raise TypeError
  end.

(** [v[:n]] *)
Definition slice_to (n : nat) (v : pyval) : result pyval :=
  match v with
  | PStr s => Ok (PStr (String.substring 0 n s))
  | PList items => Ok (PList (take n items))
  | _ => Raise TypeError
  end.

(** [x or 0] on an optional integer count. *)
Definition or_zero (x : option Z) : Z :=
  match x with
  | Some z => if (z =? 0)%Z then 0%Z else z
  | None => 0%Z
  end.

End Py.
Import Py.

(** ** A state-and-exception monad for the effectful code *)

Definition M (S A : Type) : Type := S -> result A * S.

Definition ret {S A} (a : A) : M S A := fun s => (Ok a, s).

Definition bind {S A B} (m : M S A) (k : A -> M S B) : M S B :=
  fun s =>
    match m s with
    | (Ok a, s') => k a s'
    | (Raise e, s') => (Raise e, s')
    end.

Definition raise {S A} (e : exn) : M S A := fun s => (Raise e, s).

Definition lift {S A} (r : result A) : M S A := fun s => (r, s).

Definition get {S} : M S S := fun s => (Ok s, s).

Definition modify {S} (f : S -> S) : M S unit := fun s => (Ok tt, f s).

(** [try: body / except Exception as e: handler e] *)
Definition try_except {S A} (body : M S A) (handler : exn -> M S A) : M S A :=
  fun s =>
    match body s with
    | (Ok a, s') => (Ok a, s')
    | (Raise e, s') => handler e s'
    end.

(** [try: body / finally: cleanup]: the cleanup runs on every exit and
    the outcome of the body is kept unless the cleanup itself raises. *)
Definition try_finally {S A} (body : M S A) (cleanup : M S unit) : M S A :=
  fun s =>
    match body s with
    | (r, s') =>
        match cleanup s' with
        | (Ok _, s'') => (r, s'')
        | (Raise e, s'') => (Raise e, s'')
        end
    end.

Declare Scope py_scope.
Delimit Scope py_scope with py.
Notation "'do' x <- m ; k" := (bind m (fun x => k))
  (at level 10, x name, m at level 100, k at level 200) : py_scope.
Notation "'exec' m ; k" := (bind m (fun _ => k))
  (at level 10, m at level 100, k at level 200) : py_scope.
Open Scope py_scope.

(** [for x in xs: body x], stopping at the first exception. *)
Fixpoint for_each {S A} (xs : list A) (body : A -> M S unit) : M S unit :=
  match xs with
  | [] => ret tt
  | x :: rest => exec body x; for_each rest body
  end.

(** [m] takes every state to an [R]-related one, whatever its outcome. *)
Definition preserves {S A} (R : relation S) (m : M S A) : Prop :=
  forall s, R s (snd (m s)).

(** ** Citation extractor ([extract_citations], src/app.py) *)

Module Citations.

(** [citations.append(v)] *)
Definition append (v : pyval) : M (list pyval) unit :=
  modify (fun citations => citations ++ [v]).

(** The body of the [for chunk in ...] loop. *)
Definition cite_chunk (chunk : pyval) : M (list pyval) unit :=
  let rc := getattr_default chunk "retrieved_context" PNone in
  if negb (truthy rc) then ret tt
  else
    do uri <- lift (getattr rc "uri");
    if truthy uri then append uri
    else
      do title <- lift (getattr rc "title");
      if truthy title then append title
      else
        do text <- lift (getattr rc "text");
        if truthy text then
          do head <- lift (slice_to 80 text);
          append head
        else ret tt.

(** The body of the [try] block. *)
Definition extract_body (response : pyval) : M (list pyval) unit :=
  do candidate <-
    (if hasattr response "candidates" then
       do candidates <- lift (getattr response "candidates");
       lift (index0 candidates)
     else ret PNone);
  let grounding_metadata := getattr_default candidate "grounding_metadata" PNone in
  if truthy grounding_metadata then
    do chunks <- lift (getattr grounding_metadata "grounding_chunks");
    if truthy chunks then
      do items <- lift (iter chunks);
      for_each items cite_chunk
    else ret tt
  else ret tt.

(** [try: ... except Exception: pass] followed by [return citations]. *)
Definition extract_citations_m (response : pyval) : M (list pyval) (list pyval) :=
  exec try_except (extract_body response) (fun _ => ret tt);
  get.

(** The function as its caller sees it; [citations] starts empty. *)
Definition extract_citations (response : pyval) : result (list pyval) :=
  fst (extract_citations_m response []).

(** *** Well-formed responses

    The shape the remote service documents: every grounding chunk
    carries at most one retrieved context, whose three fields are
    optional strings. *)

Record retrieved_context : Type := RetrievedContext {
  uri : option string;
  title : option string;
  text : option string
}.

Definition grounding_chunk : Type := option retrieved_context.

Definition enc_field (f : option string) : pyval :=
  match f with Some s => PStr s | None => PNone end.

Definition enc_context (rc : retrieved_context) : pyval :=
  PObj [("uri", enc_field (uri rc));
        ("title", enc_field (title rc));
        ("text", enc_field (text rc))].

Definition enc_chunk (c : grounding_chunk) : pyval :=
  PObj [("retrieved_context",
         match c with Some rc => enc_context rc | None => PNone end)].

Definition response_of_chunks (chunks : list pyval) : pyval :=
  PObj [("candidates",
         PList [PObj [("grounding_metadata",
                       PObj [("grounding_chunks", PList chunks)])]])].

Definition enc_response (chunks : list grounding_chunk) : pyval :=
  response_of_chunks (map enc_chunk chunks).

(** A field is present when it holds a non-empty string. *)
Definition present (f : option string) : option string :=
  match f with
  | Some s => if String.eqb s "" then None else Some s
  | None => None
  end.

(** The reference a chunk resolves to: URI, else title, else the first
    80 characters of the text, else nothing. *)
Definition reference (c : grounding_chunk) : option string :=
  match c with
  | None => None
  | Some rc =>
      match present (uri rc) with
      | Some u => Some u
      | None =>
          match present (title rc) with
          | Some t => Some t
          | None =>
              match present (text rc) with
              | Some x => Some (String.substring 0 80 x)
              | None => None
              end
          end
      end
  end.

Definition references (chunks : list grounding_chunk) : list string :=
  omap reference chunks.

(** ["C" * n] *)
Fixpoint repeat_char (c : Ascii.ascii) (n : nat) : string :=
  match n with
  | O => EmptyString
  | S k => String c (repeat_char c k)
  end.

(** Chunks with a single field set. *)
Definition chunk_uri (u : string) : grounding_chunk :=
  Some (RetrievedContext (Some u) None None).
Definition chunk_title (t : string) : grounding_chunk :=
  Some (RetrievedContext None (Some t) None).
Definition chunk_text (x : string) : grounding_chunk :=
  Some (RetrievedContext None None (Some x)).

(** A chunk whose retrieved context has no [uri] attribute. *)
Definition chunk_without_uri : pyval :=
  PObj [("retrieved_context", PObj [("title", PStr "B")])].

End Citations.

(** ** The world the ingestion code runs in *)

Module Env.

(** One entry of the [custom_metadata] list of an upload config: the
    remote API distinguishes three kinds of value by field name. *)
Inductive meta_value : Type :=
| StringValue (s : string)
| NumericValue (z : Z)
| StringListValue (values : list string).

Record metadata_entry : Type := MetadataEntry {
  key : string;
  value : meta_value
}.

(** The [config] dictionary built for the upload call; an absent key
    is [None]. *)
Record upload_config : Type := UploadConfig {
  max_tokens_per_chunk : Z;
  max_overlap_tokens : Z;
  config_display_name : option string;
  custom_metadata : option (list metadata_entry)
}.

(** Calls made to the remote service, as the service sees them. *)
Inductive remote_call : Type :=
| UploadToFileSearchStore (store_name path : string) (config : upload_config)
| OperationsGet (operation : pyval)
| ListStores
| CreateStore (display_name : string)
| GetStore (store_name : string).

(** What the user interface has been asked to show. *)
Inductive status_msg : Type :=
| TimedOut
| Processing
| OperationFailed (error_msg : pyval)
| Complete.

Inductive ui_event : Type :=
| ProgressBar (fraction : Q)
| StatusError (msg : status_msg)
| StatusText (msg : status_msg)
| StatusSuccess (msg : status_msg)
| ProgressEmpty
| StatusEmpty
| UploadFailed (e : exn)
| CouldNotListStores (e : exn)
| FailedToCreateStore (e : exn)
| FailedToGetStats (e : exn)
| FailedToListStores (e : exn).

(** The uploaded file handed over by the form. *)
Record uploaded_file : Type := UploadedFile {
  file_name : string;
  file_value : list Byte.byte
}.

(** Everything outside the repository: Python built-ins, the operating
    system and the remote service.  Times are in seconds; the floats
    of [time.time()] are taken as exact rationals. *)
Record platform : Type := Platform {
  (** [str(v)] *)
  py_str : pyval -> string;
  (** [os.path.splitext(name)[1]] *)
  splitext_ext : string -> string;
  (** the path [NamedTemporaryFile(delete=False, suffix=...)] creates *)
  named_temporary_file : string -> gset string -> result string;
  (** [tmp.write(bytes)] *)
  tmp_write : string -> list Byte.byte -> result unit;
  (** the reply to [upload_to_file_search_store] *)
  upload_reply : string -> string -> upload_config -> result pyval;
  (** the reply to the [n]-th [client.operations.get] *)
  operations_reply : nat -> pyval -> result pyval;
  (** by how much the [n]-th sleep-and-fetch overruns the sleep asked for *)
  lag : nat -> Q
}.

Record world : Type := World {
  clock : Q;
  fs : gset string;
  polls : nat;
  remote_calls : list remote_call;
  ui : list ui_event
}.

Definition time_time : M world Q := fun w => (Ok (clock w), w).

Definition advance (d : Q) : M world unit :=
  modify (fun w => World (clock w + d) (fs w) (polls w) (remote_calls w) (ui w)).

Definition show (e : ui_event) : M world unit :=
  modify (fun w => World (clock w) (fs w) (polls w) (remote_calls w) (ui w ++ [e])).

Definition call (c : remote_call) : M world unit :=
  modify (fun w => World (clock w) (fs w) (polls w) (remote_calls w ++ [c]) (ui w)).

(** [os.path.exists(path)] *)
Definition path_exists (path : string) : M world bool :=
  fun w => (Ok (bool_decide (path ∈ fs w)), w).

(** [os.remove(path)] *)
Definition os_remove (path : string) : M world unit :=
  fun w =>
    if bool_decide (path ∈ fs w) then
      (Ok tt, World (clock w) (fs w ∖ {[path]}) (polls w) (remote_calls w) (ui w))
    else (Raise (OSError "No such file or directory"), w).

(** [time.sleep(seconds)] followed by [client.operations.get(current)]:
    the clock moves on by the sleep and the overrun of this round. *)
Definition sleep_then_get (P : platform) (seconds : Q) (current : pyval) : M world pyval :=
  fun w =>
    let n := polls w in
    (operations_reply P n current,
     World (clock w + seconds + lag P n) (fs w) (S n)
           (remote_calls w ++ [OperationsGet current]) (ui w)).

(** [a / b] on numbers. *)
Definition divide (a b : Q) : result Q :=
  if Qeq_bool b 0 then Raise ZeroDivisionError else Ok (a / b)%Q.

End Env.

(** ** Ingestion polling loop ([wait_for_operation], src/app.py) *)

Module Polling.
Import Env.

(** How the [while] loop is left: by a [return] inside it, by its
    condition becoming false, or because the bound on the number of
    rounds of this model was reached. *)
Inductive loop_exit : Type :=
| Returned (b : bool)
| LoopDone (current : pyval)
| OutOfFuel.

(** [while not current.done: ...]; one unit of fuel per round.  The
    progress bar accepts fractions between 0 and 1 only; others do not
    arise while the clock runs forward. *)
Fixpoint poll_loop (P : platform) (fuel : nat) (deadline : Q) (timeout_seconds : Z)
    (current : pyval) : M world loop_exit :=
  do done <- lift (getattr current "done");
  if truthy done then ret (LoopDone current)
  else
    match fuel with
    | O => ret OutOfFuel
    | S fuel' =>
        do now <- time_time;
        if Qle_bool deadline now then
          exec show (StatusError TimedOut);
          ret (Returned false)
        else
          do now' <- time_time;
          let elapsed := (now' - (deadline - inject_Z timeout_seconds))%Q in
          do ratio <- lift (divide elapsed (inject_Z timeout_seconds));
          let progress := Qmin ratio (99 # 100) in
          exec show (ProgressBar progress);
          exec show (StatusText Processing);
          do next <- sleep_then_get P 3 current;
          poll_loop P fuel' deadline timeout_seconds next
    end.

(** [getattr(current.error, "message", str(current.error))] *)
Definition error_message (P : platform) (error : pyval) : pyval :=
  getattr_default error "message" (PStr (py_str P error)).

(** The statements after the loop. *)
Definition after_loop (P : platform) (current : pyval) : M world bool :=
  exec show (ProgressBar 1);
  do failed <-
    (if hasattr current "error" then
       do error <- lift (getattr current "error");
       ret (truthy error)
     else ret false);
  if (failed : bool) then
    do error <- lift (getattr current "error");
    exec show (StatusError (OperationFailed (error_message P error)));
    ret false
  else
    exec show (StatusSuccess Complete);
    exec advance (1 # 2);
    ret true.

(** What follows the loop, by the way it was left. *)
Definition after_exit (P : platform) (exit : loop_exit) : M world (option bool) :=
  match exit with
  | Returned b => ret (Some b)
  | LoopDone current =>
      do b <- after_loop P current;
      ret (Some b)
  | OutOfFuel => ret None
  end.

(** [wait_for_operation(client, operation, timeout_seconds)]; the
    result is [None] only when the fuel of the model runs out. *)
Definition wait_for_operation (P : platform) (fuel : nat) (operation : pyval)
    (timeout_seconds : Z) : M world (option bool) :=
  do start <- time_time;
  let deadline := (start + inject_Z timeout_seconds)%Q in
  exec show (ProgressBar 0);
  try_finally
    (do exit <- poll_loop P fuel deadline timeout_seconds operation;
     after_exit P exit)
    (exec show ProgressEmpty; show StatusEmpty).

(** An operation object as the remote service reports it. *)
Definition operation_obj (done : bool) (error : pyval) : pyval :=
  PObj [("done", PBool done); ("error", error)].

(** *** The polling protocol as the specification words it *)

(** How an ingestion ends. *)
Inductive outcome : Type :=
| Timeout
| IngestFailed (message : pyval)
| Success.

Definition succeeded (out : outcome) : bool :=
  match out with Success => true | _ => false end.

(** The world after more events were shown. *)
Definition with_ui (w : world) (events : list ui_event) : world :=
  World (clock w) (fs w) (polls w) (remote_calls w) (ui w ++ events).

(** The world after the fixed sleep of 3 seconds and the re-fetch of
    the status of [current]. *)
Definition slept_and_fetched (P : platform) (current : pyval) (w : world) : world :=
  World (clock w + 3 + lag P (polls w)) (fs w) (S (polls w))
    (remote_calls w ++ [OperationsGet current]) (ui w).

(** The fraction reported at time [now]: [min(elapsed / D, 0.99)] with
    [elapsed] counted from [deadline - D]. *)
Definition progress_at (deadline : Q) (D : Z) (now : Q) : Q :=
  Qmin ((now - (deadline - inject_Z D)) / inject_Z D) (99 # 100).

Definition not_done (operation : pyval) : Prop :=
  exists d, getattr operation "done" = Ok d /\ truthy d = false.

Definition is_done (operation : pyval) : Prop :=
  exists d, getattr operation "done" = Ok d /\ truthy d = true.

(** [polling P deadline D current w out w']: from the world [w], with
    the operation last seen as [current], the protocol ends with [out]
    in the world [w'].  Not done at or after the deadline: timeout.  Not
    done before the deadline: report progress, sleep, re-fetch, repeat.
    Done with an error: failure with its message.  Done without error:
    success, with progress 1.0 reported. *)
Inductive polling (P : platform) (deadline : Q) (D : Z)
  : pyval -> world -> outcome -> world -> Prop :=
| polling_timeout (current : pyval) (w : world) :
    not_done current ->
    (deadline <= clock w)%Q ->
    polling P deadline D current w Timeout (with_ui w [StatusError TimedOut])
| polling_round (current : pyval) (w : world) (next : pyval) (out : outcome)
    (w' : world) :
    not_done current ->
    (clock w < deadline)%Q ->
    operations_reply P (polls w) current = Ok next ->
    polling P deadline D next
      (slept_and_fetched P current
         (with_ui w [ProgressBar (progress_at deadline D (clock w));
                     StatusText Processing]))
      out w' ->
    polling P deadline D current w out w'
| polling_failed (current : pyval) (w : world) (error : pyval) :
    is_done current ->
    getattr current "error" = Ok error ->
    truthy error = true ->
    polling P deadline D current w (IngestFailed (error_message P error))
      (with_ui w [ProgressBar 1;
                  StatusError (OperationFailed (error_message P error))])
| polling_succeeded (current : pyval) (w : world) :
    is_done current ->
    (forall error, getattr current "error" = Ok error -> truthy error = false) ->
    polling P deadline D current w Success
      (World (clock w + (1 # 2)) (fs w) (polls w) (remote_calls w)
         (ui w ++ [ProgressBar 1; StatusSuccess Complete])).

End Polling.

(** ** Document upload ([upload_document], src/app.py) *)

Module Upload.
Import Env Polling.

(** The frame of one call: the local variable [temp_path], which the
    [finally] clause reads, next to the world. *)
Definition frame : Type := option string * world.

Definition in_world {A} (m : M world A) : M frame A :=
  fun f =>
    match m (snd f) with
    | (r, w') => (r, (fst f, w'))
    end.

Definition set_temp_path (path : string) : M frame unit :=
  modify (fun f => (Some path, snd f)).

Definition get_temp_path : M frame (option string) :=
  fun f => (Ok (fst f), f).

(** [tempfile.NamedTemporaryFile(delete=False, suffix=...)]: the file
    exists from here on. *)
Definition open_temporary_file (P : platform) (suffix : string) : M world string :=
  fun w =>
    match named_temporary_file P suffix (fs w) with
    | Ok path =>
        (Ok path, World (clock w) ({[path]} ∪ fs w) (polls w) (remote_calls w) (ui w))
    | Raise e => (Raise e, w)
    end.

(** [client.file_search_stores.upload_to_file_search_store(...)] *)
Definition upload_to_file_search_store (P : platform) (store_name path : string)
    (config : upload_config) : M world pyval :=
  exec call (UploadToFileSearchStore store_name path config);
  lift (upload_reply P store_name path config).

(** [if s:] on an optional string. *)
Definition nonempty (s : option string) : option string :=
  match s with
  | Some x => if String.eqb x "" then None else Some x
  | None => None
  end.

(** [[{"key": k, "string_value": str(v)} for k, v in metadata.items()]] *)
Definition metadata_entries (P : platform) (metadata : list (string * pyval))
    : list metadata_entry :=
  map (fun kv => MetadataEntry (fst kv) (StringValue (py_str P (snd kv)))) metadata.

(** The [config] dictionary after the two optional keys were set. *)
Definition build_config (P : platform) (display_name : option string)
    (metadata : option (list (string * pyval))) (chunk_size chunk_overlap : Z)
    : upload_config :=
  UploadConfig chunk_size chunk_overlap
    (nonempty display_name)
    (match metadata with
     | Some (kv :: rest) => Some (metadata_entries P (kv :: rest))
     | Some [] => None
     | None => None
     end).

(** The body of the [try] block. *)
Definition upload_body (P : platform) (fuel : nat) (store_name : string)
    (file : uploaded_file) (display_name : option string)
    (metadata : option (list (string * pyval))) (chunk_size chunk_overlap : Z)
    : M frame (option bool) :=
  do path <- in_world (open_temporary_file P (splitext_ext P (file_name file)));
  exec in_world (lift (tmp_write P path (file_value file)));
  exec set_temp_path path;
  let config := build_config P display_name metadata chunk_size chunk_overlap in
  do upload_op <- in_world (upload_to_file_search_store P store_name path config);
  in_world (wait_for_operation P fuel upload_op 300).

(** The [finally] clause. *)
Definition upload_cleanup : M frame unit :=
  do temp_path <- get_temp_path;
  match nonempty temp_path with
  | Some path =>
      do there <- in_world (path_exists path);
      if (there : bool) then in_world (os_remove path) else ret tt
  | None => ret tt
  end.

(** [upload_document(client, store_name, uploaded_file, display_name,
    metadata, chunk_size, chunk_overlap)]; [temp_path] starts as [None]. *)
Definition upload_document (P : platform) (fuel : nat) (store_name : string)
    (file : uploaded_file) (display_name : option string)
    (metadata : option (list (string * pyval))) (chunk_size chunk_overlap : Z)
    : M world (option bool) :=
  fun w =>
    match
      try_finally
        (try_except
           (upload_body P fuel store_name file display_name metadata
              chunk_size chunk_overlap)
           (fun e => exec in_world (show (UploadFailed e)); ret (Some false)))
        upload_cleanup (None, w)
    with
    | (r, f) => (r, snd f)
    end.

(** The upload calls among the remote calls made. *)
Definition uploads (cs : list remote_call) : list (string * string * upload_config) :=
  omap (fun c =>
          match c with
          | UploadToFileSearchStore s p cfg => Some (s, p, cfg)
          | _ => None
          end) cs.

(** Two worlds that differ at most in the clock, the polls made and the
    messages shown: the same files exist and the same uploads were made. *)
Definition quiet (w w' : world) : Prop :=
  fs w' = fs w /\ uploads (remote_calls w') = uploads (remote_calls w).

(** A rendering of values for [str], exact on strings and integers. *)
Definition sample_str (v : pyval) : string :=
  match v with
  | PNone => "None"
  | PBool true => "True"
  | PBool false => "False"
  | PInt z => pretty z
  | PStr s => s
  | PList _ => "[...]"
  | PObj _ => "<object>"
  end.

(** A platform on which nothing fails: the temporary file is named
    after the suffix, the upload returns an operation that is not done,
    and the operation is reported done by the [done_after]-th status
    fetch (never, if [None]) with the error [error]. *)
Definition sample_platform (done_after : option nat) (error : pyval) : platform :=
  Platform
    sample_str
    (fun _ => ".txt")
    (fun suffix _ => Ok ("/tmp/tmpk3x9" +:+ suffix))
    (fun _ _ => Ok tt)
    (fun _ _ _ => Ok (operation_obj false PNone))
    (fun n _ =>
       match done_after with
       | Some k => Ok (operation_obj (k <=? S n)%nat error)
       | None => Ok (operation_obj false PNone)
       end)
    (fun _ => 0%Q).

Definition sample_file : uploaded_file :=
  UploadedFile "notes.txt" [Byte.x68; Byte.x69].

(** A world in which nothing has happened yet. *)
Definition initial_world : world := World 0 ∅ 0 [] [].

End Upload.

(** ** Upload endpoint of the backend ([upload_document], src/backend/main.py) *)

Module Backend.
Import Env.

(** What the endpoint depends on: the corpus lookup, the file write
    and the import call of the RAG engine. *)
Record rag_platform : Type := RagPlatform {
  (** [str(e)] *)
  str_of_exn : exn -> string;
  get_or_create_corpus : result string;
  buffer_write : string -> list Byte.byte -> result unit;
  import_files : string -> list string -> Z -> Z -> result Z
}.

(** [open(temp_path, "wb")]: creates (or truncates) the file. *)
Definition open_wb (path : string) : M (gset string) unit :=
  modify (fun files => {[path]} ∪ files).

(** [os.remove(temp_path)] *)
Definition remove (path : string) : M (gset string) unit :=
  fun files =>
    if bool_decide (path ∈ files) then (Ok tt, files ∖ {[path]})
    else (Raise (OSError "No such file or directory"), files).

(** The endpoint; the state is the set of files on disk and the
    result the number of imported files reported in the message. *)
Definition upload_document (R : rag_platform) (file : uploaded_file)
    : M (gset string) Z :=
  try_except
    (do corpus <- lift (get_or_create_corpus R);
     let temp_path := "/tmp/" +:+ file_name file in
     exec open_wb temp_path;
     exec lift (buffer_write R temp_path (file_value file));
     do imported <- lift (import_files R corpus [temp_path] 512 50);
     exec remove temp_path;
     ret imported)
    (fun e => raise (HTTPException 500 (str_of_exn R e))).

(** A RAG engine whose import call fails. *)
Definition failing_rag : rag_platform :=
  RagPlatform
    (fun e => match e with RemoteError msg => msg | _ => "error" end)
    (Ok "corpora/rag-corpus-gemini")
    (fun _ _ => Ok tt)
    (fun _ _ _ _ => Raise (RemoteError "import failed")).

End Backend.

(** ** Store registry ([get_or_create_file_search_store],
       [get_store_stats], [list_all_stores], src/app.py) *)

Module Stores.
Import Env.

(** A store as the remote service reports it; the counters and the
    size may be [None]. *)
Record remote_store : Type := RemoteStore {
  name : string;
  display_name : string;
  active_documents_count : option Z;
  pending_documents_count : option Z;
  failed_documents_count : option Z;
  size_bytes : option Z;
  create_time : string;
  update_time : string
}.

(** The replies of the remote store service, given the stores it
    holds: what a listing yields before it ends (with an exception or
    normally), the store a create call makes, the store a get call
    finds. *)
Record store_api : Type := StoreApi {
  list_reply : list remote_store -> list remote_store * option exn;
  create_reply : string -> list remote_store -> result remote_store;
  get_reply : string -> list remote_store -> result remote_store
}.

(** The session ([st.session_state], its string-valued entries), the
    stores held remotely, the calls made and the messages shown. *)
Record state : Type := State {
  session : gmap string string;
  stores : list remote_store;
  calls : list remote_call;
  shown : list ui_event
}.

Definition call (c : remote_call) : M state unit :=
  modify (fun s => State (session s) (stores s) (calls s ++ [c]) (shown s)).

Definition show (e : ui_event) : M state unit :=
  modify (fun s => State (session s) (stores s) (calls s) (shown s ++ [e])).

(** [st.session_state.store_name = v] *)
Definition set_store_name (v : string) : M state unit :=
  modify (fun s => State (<["store_name" := v]> (session s)) (stores s) (calls s) (shown s)).

(** [client.file_search_stores.create(config=...)] *)
Definition create (A : store_api) (display_name : string) : M state remote_store :=
  exec call (CreateStore display_name);
  fun s =>
    match create_reply A display_name (stores s) with
    | Ok store => (Ok store, State (session s) (stores s ++ [store]) (calls s) (shown s))
    | Raise e => (Raise e, s)
    end.

(** The [for store in ...list()] loop with its early [return]: the
    name of the first store yielded whose display name matches. *)
Fixpoint find_store (display_name : string) (yielded : list remote_store)
    : option string :=
  match yielded with
  | [] => None
  | store :: rest =>
      if String.eqb (Stores.display_name store) display_name
      then Some (name store)
      else find_store display_name rest
  end.

(** [get_or_create_file_search_store(client, display_name)];
    [configured] is the module constant [FILE_SEARCH_STORE_NAME].  The
    result is [None] when the script is halted by [st.stop()] and the
    function does not return. *)
Definition get_or_create_file_search_store (A : store_api)
    (configured : option string) (display_name : string) : M state (option string) :=
  match Upload.nonempty configured with
  | Some store_name => ret (Some store_name)
  | None =>
      do s <- get;
      match session s !! "store_name" with
      | Some store_name => ret (Some store_name)
      | None =>
          do found <-
            try_except
              (exec call ListStores;
               let '(yielded, failure) := list_reply A (stores s) in
               match find_store display_name yielded with
               | Some store_name =>
                   exec set_store_name store_name;
                   ret (Some store_name)
               | None =>
                   match failure with
                   | Some e => raise e
                   | None => ret None
                   end
               end)
              (fun e => exec show (CouldNotListStores e); ret None);
          match found with
          | Some store_name => ret (Some store_name)
          | None =>
              try_except
                (do store <- create A display_name;
                 exec set_store_name (name store);
                 ret (Some (name store)))
                (fun e => exec show (FailedToCreateStore e); ret None)
          end
      end
  end.

(** The dictionary built for one store. *)
Record store_stats : Type := StoreStats {
  stats_name : string;
  stats_display_name : string;
  active_documents : Z;
  pending_documents : Z;
  failed_documents : Z;
  total_documents : Z;
  stats_size_bytes : Z;
  stats_create_time : string;
  stats_update_time : option string
}.

(** The dictionary literal of [get_store_stats]. *)
Definition stats_of (store : remote_store) : store_stats :=
  let active := or_zero (active_documents_count store) in
  let pending := or_zero (pending_documents_count store) in
  let failed := or_zero (failed_documents_count store) in
  StoreStats (name store) (display_name store) active pending failed
    (active + pending + failed)%Z
    (or_zero (size_bytes store)) (create_time store) (Some (update_time store)).

(** The dictionary literal of [list_all_stores] (no ["update_time"]). *)
Definition listed_of (store : remote_store) : store_stats :=
  let active := or_zero (active_documents_count store) in
  let pending := or_zero (pending_documents_count store) in
  let failed := or_zero (failed_documents_count store) in
  StoreStats (name store) (display_name store) active pending failed
    (active + pending + failed)%Z
    (or_zero (size_bytes store)) (create_time store) None.

(** [get_store_stats(client, store_name)]; [None] is the empty
    dictionary returned after a failure. *)
Definition get_store_stats (A : store_api) (store_name : string)
    : M state (option store_stats) :=
  try_except
    (exec call (GetStore store_name);
     do s <- get;
     do store <- lift (get_reply A store_name (stores s));
     ret (Some (stats_of store)))
    (fun e => exec show (FailedToGetStats e); ret None).

(** [list_all_stores(client)]: the list built so far is dropped when
    the listing fails. *)
Definition list_all_stores (A : store_api) : M state (list store_stats) :=
  try_except
    (exec call ListStores;
     do s <- get;
     let '(yielded, failure) := list_reply A (stores s) in
     match failure with
     | Some e => raise e
     | None => ret (map listed_of yielded)
     end)
    (fun e => exec show (FailedToListStores e); ret []).

(** The record built for a store: the three counters are those of the
    remote store with [None] read as 0, and the total is their sum. *)
Definition counts_of (store : remote_store) (stats : store_stats) : Prop :=
  active_documents stats = default 0%Z (active_documents_count store)
  /\ pending_documents stats = default 0%Z (pending_documents_count store)
  /\ failed_documents stats = default 0%Z (failed_documents_count store)
  /\ total_documents stats
     = (active_documents stats + pending_documents stats + failed_documents stats)%Z.

(** A remote service that holds its stores in a list, never fails to
    list them, and names a new store after its display name. *)
Definition sample_api : store_api :=
  StoreApi
    (fun held => (held, None))
    (fun display_name held =>
       Ok (RemoteStore ("fileSearchStores/" +:+ display_name) display_name
             None None None None "2025-01-01T00:00:00Z" "2025-01-01T00:00:00Z"))
    (fun store_name held =>
       match filter (fun store => name store = store_name) held with
       | store :: _ => Ok store
       | [] => Raise (RemoteError "store not found")
       end).

Definition sample_store : remote_store :=
  RemoteStore "fileSearchStores/docs" "docs" (Some 3%Z) None (Some 1%Z) None
    "2025-01-01T00:00:00Z" "2025-01-02T00:00:00Z".

(** A fresh session in front of a remote service holding [held]. *)
Definition fresh_state (held : list remote_store) : state :=
  State ∅ held [] [].

End Stores.

(** ** Sorting of the document inventory ([render_document_inventory]
       and [render_store_files_view], src/app.py) *)

Module Inventory.

(** The dictionary [list_all_documents] builds for a document. *)
Record document : Type := Document {
  id : string;
  display_name : string;
  state : string;
  size_bytes : Z;
  mime_type : string;
  create_time : string;
  update_time : string
}.

(** [list.sort] is stable.  It is embedded as an insertion sort in which
    an element passes exactly the elements that sort strictly before it,
    so that elements with equal keys keep their order.  [before y x]
    says that [y] sorts strictly before [x]. *)
Fixpoint insert_sorted {A} (before : A -> A -> bool) (x : A) (sorted : list A)
    : list A :=
  match sorted with
  | [] => [x]
  | y :: rest =>
      if before y x then y :: insert_sorted before x rest
      else x :: y :: rest
  end.

Definition stable_sort {A} (before : A -> A -> bool) (l : list A) : list A :=
  foldr (insert_sorted before) [] l.

(** [l.sort(key=key)] and [l.sort(key=key, reverse=True)] for a key
    type with strict order [lt]; with [reverse] equal keys also keep
    their original order. *)
Definition sort_by_key {A K} (lt : K -> K -> bool) (key : A -> K) (reverse : bool)
    (l : list A) : list A :=
  if reverse then stable_sort (fun y x => lt (key x) (key y)) l
  else stable_sort (fun y x => lt (key y) (key x)) l.

(** The "Apply sorting" block; strings compare by code point. *)
Definition apply_sorting (sort_by : string) (filtered_docs : list document)
    : list document :=
  if String.eqb sort_by "Upload Time (Newest)" then
    sort_by_key String.ltb create_time true filtered_docs
  else if String.eqb sort_by "Upload Time (Oldest)" then
    sort_by_key String.ltb create_time false filtered_docs
  else if String.eqb sort_by "Name" then
    sort_by_key String.ltb display_name false filtered_docs
  else if String.eqb sort_by "Size" then
    sort_by_key Z.ltb size_bytes true filtered_docs
  else filtered_docs.

(** [x] may stand in front of [y] when [y] does not sort strictly
    before [x]. *)
Definition in_order {A} (before : A -> A -> bool) (x y : A) : Prop :=
  before y x = false.

(** A document of which only the display name matters. *)
Definition named (n : string) : document :=
  Document n n "STATE_ACTIVE" 0 "text/plain" "" "".

(** [s.lower()] on ASCII letters, the case-insensitive key the
    specification asks for. *)
Definition lower_char (c : ascii) : ascii :=
  let n := nat_of_ascii c in
  if (65 <=? n)%nat && (n <=? 90)%nat then ascii_of_nat (n + 32) else c.

Fixpoint lower (s : string) : string :=
  match s with
  | EmptyString => EmptyString
  | String c rest => String (lower_char c) (lower rest)
  end.

End Inventory.

(** ** Summary metrics of the store overview
       ([render_all_stores_overview], src/app.py) *)

Module Overview.
Import Stores.

(** [sum(s[field] for s in stores)] *)
Definition sum_of (field : store_stats -> Z) (listed : list store_stats) : Z :=
  foldr (fun stats acc => (field stats + acc)%Z) 0%Z listed.

(** The three metrics at the head of the overview: number of stores,
    total documents and total size; [None] when there is no store and
    only the hint to create one is shown. *)
Definition summary_metrics (listed : list store_stats) : option (nat * Z * Z) :=
  match listed with
  | [] => None
  | _ => Some (length listed, sum_of total_documents listed,
               sum_of stats_size_bytes listed)
  end.

End Overview.

(** ** The order behind each sort key *)

Module SortKeys.
Import Inventory.

(** The comparison each sort key stands for, as the [before] relation
    of the stable sort. *)
Definition key_order (sort_by : string) : option (document -> document -> bool) :=
  if String.eqb sort_by "Upload Time (Newest)" then
    Some (fun y x => String.ltb (create_time x) (create_time y))
  else if String.eqb sort_by "Upload Time (Oldest)" then
    Some (fun y x => String.ltb (create_time y) (create_time x))
  else if String.eqb sort_by "Name" then
    Some (fun y x => String.ltb (display_name y) (display_name x))
  else if String.eqb sort_by "Size" then
    Some (fun y x => Z.ltb (size_bytes x) (size_bytes y))
  else None.

End SortKeys.

(** ** Chat ([chat_with_documents] and the chat tab of [main], src/app.py) *)

Module Chat.

(** The retrieval tool attached to a generation request. *)
Inductive tool : Type :=
| GoogleSearchTool
| FileSearchTool (file_search_store_names : list string).

(** A call of [client.models.generate_content]. *)
Record generate_call : Type := GenerateContent {
  model : string;
  contents : string;
  tools : list tool
}.

(** The calls made to the generative service and the errors shown. *)
Record chat_world : Type := ChatWorld {
  generate_calls : list generate_call;
  chat_errors : list exn
}.

(** [client.models.generate_content(...)]; [reply] is what the service
    answers to a call. *)
Definition generate_content (reply : generate_call -> result pyval)
    (c : generate_call) : M chat_world pyval :=
  fun w => (reply c, ChatWorld (generate_calls w ++ [c]) (chat_errors w)).

(** [st.error(f"Chat failed: {e}")] *)
Definition chat_failed (e : exn) : M chat_world unit :=
  modify (fun w => ChatWorld (generate_calls w) (chat_errors w ++ [e])).

Definition fallback_answer : string :=
  "I couldn't generate a response. Please try rephrasing your question.".

(** [chat_with_documents(client, store_name, query, use_google_search)] *)
Definition chat_with_documents (reply : generate_call -> result pyval)
    (store_name query : string) (use_google_search : bool)
    : M chat_world (option pyval * list pyval) :=
  try_except
    (let tools :=
       if use_google_search then [GoogleSearchTool]
       else [FileSearchTool [store_name]] in
     do response <- generate_content reply (GenerateContent "gemini-2.5-flash" query tools);
     do text <- lift (getattr response "text");
     let text_response := if truthy text then text else PStr fallback_answer in
     do citations <- lift (Citations.extract_citations response);
     ret (Some text_response, citations))
    (fun e => exec chat_failed e; ret (None, [])).

(** An entry of [st.session_state.messages]. *)
Record message : Type := Message {
  role : string;
  content : pyval;
  message_citations : option (list pyval)
}.

(** The handling of a prompt entered in the chat input: the prompt is
    added to the history, then the answer, if there is one. *)
Definition handle_prompt (reply : generate_call -> result pyval)
    (store_name prompt : string) (use_google_search : bool)
    (messages : list message) : M chat_world (list message) :=
  let messages := messages ++ [Message "user" (PStr prompt) None] in
  do answer <- chat_with_documents reply store_name prompt use_google_search;
  match fst answer with
  | Some response_text =>
      if truthy response_text then
        ret (messages ++ [Message "assistant" response_text (Some (snd answer))])
      else ret messages
  | None => ret messages
  end.

(** The one call a chat makes. *)
Definition chat_call (store_name query : string) (use_google_search : bool)
    : generate_call :=
  GenerateContent "gemini-2.5-flash" query
    [if use_google_search then GoogleSearchTool else FileSearchTool [store_name]].

End Chat.

(** ** Document catalog ([list_all_documents], [get_document_details],
       src/app.py) *)

Module Catalog.

(** [os.path.basename(p)]: what follows the last slash. *)
Fixpoint has_slash (s : string) : bool :=
  match s with
  | EmptyString => false
  | String c rest => Ascii.eqb c "/" || has_slash rest
  end.

Fixpoint basename (p : string) : string :=
  match p with
  | EmptyString => EmptyString
  | String c rest =>
      if has_slash rest then basename rest
      else if Ascii.eqb c "/" then rest
      else p
  end.

(** [os.path.basename] accepts strings only. *)
Definition os_path_basename (v : pyval) : result pyval :=
  match v with
  | PStr p => Ok (PStr (basename p))
  | _ => Raise TypeError
  end.

(** The key of a metadata entry as a dictionary key.  The remote API
    types it as a string; entries with other keys are not modelled and
    stop the model. *)
Definition as_key (v : pyval) : result string :=
  match v with
  | PStr k => Ok k
  | _ => Raise TypeError
  end.

(** [custom_meta[meta.key] = value] *)
Definition store_entry (meta value : pyval) : M (gmap string pyval) unit :=
  do k <- lift (getattr meta "key");
  do k <- lift (as_key k);
  modify (fun custom_meta => <[k := value]> custom_meta).

(** The body of [for meta in doc.custom_metadata]. *)
Definition read_entry (meta : pyval) : M (gmap string pyval) unit :=
  if hasattr meta "string_value" then
    do value <- lift (getattr meta "string_value");
    store_entry meta value
  else if hasattr meta "numeric_value" then
    do value <- lift (getattr meta "numeric_value");
    store_entry meta value
  else if hasattr meta "string_list_value" then
    do holder <- lift (getattr meta "string_list_value");
    do values <- lift (getattr holder "values");
    do items <- lift (iter values);
    store_entry meta (PList items)
  else ret tt.

(** The "Extract custom metadata" block, common to both functions;
    [custom_meta] starts empty. *)
Definition custom_metadata_of (doc : pyval) : result (gmap string pyval) :=
  let run : M (gmap string pyval) unit :=
    if hasattr doc "custom_metadata" then
      do entries <- lift (getattr doc "custom_metadata");
      if truthy entries then
        do items <- lift (iter entries);
        for_each items read_entry
      else ret tt
    else ret tt in
  match run ∅ with
  | (Ok _, custom_meta) => Ok custom_meta
  | (Raise e, _) => Raise e
  end.

(** The dictionary built for a document. *)
Record doc_record : Type := DocRecord {
  id : pyval;
  display_name : pyval;
  state : pyval;
  size_bytes : pyval;
  mime_type : pyval;
  create_time : pyval;
  update_time : pyval;
  custom_metadata : gmap string pyval
}.

(** [doc.attr if hasattr(doc, "attr") else default] *)
Definition attr_or (doc : pyval) (attr : string) (default : pyval) : result pyval :=
  if hasattr doc attr then getattr doc attr else Ok default.

(** The result monad, for code without state. *)
Definition and_then {A B} (r : result A) (k : A -> result B) : result B :=
  match r with
  | Ok a => k a
  | Raise e => Raise e
  end.

(** The body of the loop of [list_all_documents]: the record appended
    for [doc]. *)
Definition listed_record (doc : pyval) : result doc_record :=
  and_then (custom_metadata_of doc) (fun custom_meta =>
  and_then (getattr doc "name") (fun name =>
  and_then (getattr doc "display_name") (fun display_name =>
  and_then (if truthy display_name then Ok display_name
            else and_then (getattr doc "name") os_path_basename) (fun shown_name =>
  and_then (attr_or doc "state" (PStr "UNKNOWN")) (fun state =>
  and_then (attr_or doc "size_bytes" (PInt 0)) (fun size_bytes =>
  and_then (attr_or doc "mime_type" (PStr "unknown")) (fun mime_type =>
  and_then (attr_or doc "create_time" (PStr "")) (fun create_time =>
  and_then (attr_or doc "update_time" (PStr "")) (fun update_time =>
  Ok (DocRecord name shown_name state size_bytes mime_type create_time
        update_time custom_meta)))))))))).

(** The dictionary [get_document_details] returns. *)
Definition detailed_record (doc : pyval) : result doc_record :=
  and_then (custom_metadata_of doc) (fun custom_meta =>
  and_then (getattr doc "name") (fun name =>
  and_then (getattr doc "display_name") (fun display_name =>
  and_then (getattr doc "state") (fun state =>
  and_then (getattr doc "size_bytes") (fun size_bytes =>
  and_then (getattr doc "mime_type") (fun mime_type =>
  and_then (getattr doc "create_time") (fun create_time =>
  and_then (getattr doc "update_time") (fun update_time =>
  Ok (DocRecord name display_name state size_bytes mime_type create_time
        update_time custom_meta))))))))).

(** The errors shown. *)
Inductive catalog_error : Type :=
| FailedToListDocuments (e : exn)
| FailedToGetDocumentDetails (e : exn).

(** [documents.append(...)] *)
Definition append_record (r : doc_record) : M (list doc_record * list catalog_error) unit :=
  modify (fun s => (fst s ++ [r], snd s)).

Definition show_error (e : catalog_error) : M (list doc_record * list catalog_error) unit :=
  modify (fun s => (fst s, snd s ++ [e])).

(** [list_all_documents(client, store_name)].  [listing] is what the
    pager of the remote service yields for the store before it ends,
    normally or with an exception; the state holds the local list
    [documents] and the errors shown. *)
Definition list_all_documents (listing : string -> list pyval * option exn)
    (store_name : string) (shown : list catalog_error)
    : list doc_record * list catalog_error :=
  let body : M (list doc_record * list catalog_error) (list doc_record) :=
    try_except
      (exec for_each (fst (listing store_name))
              (fun doc => do r <- lift (listed_record doc); append_record r);
       exec (match snd (listing store_name) with
             | Some e => raise e
             | None => ret tt
             end);
       do s <- get;
       ret (fst s))
      (fun e => exec show_error (FailedToListDocuments e); ret []) in
  match body ([], shown) with
  | (Ok documents, s) => (documents, snd s)
  | (Raise _, s) => ([], snd s)
  end.

(** [get_document_details(client, doc_id)]; [fetch] is the reply of the
    remote service to the get call. *)
Definition get_document_details (fetch : string -> result pyval) (doc_id : string)
    (shown : list catalog_error) : option doc_record * list catalog_error :=
  match and_then (fetch doc_id) detailed_record with
  | Ok r => (Some r, shown)
  | Raise e => (None, shown ++ [FailedToGetDocumentDetails e])
  end.

(** A metadata entry as the remote service hands it back: an object
    with the key and the one value field that was sent. *)
Definition stored_entry (entry : Env.metadata_entry) : pyval :=
  PObj [("key", PStr (Env.key entry));
        match Env.value entry with
        | Env.StringValue s => ("string_value", PStr s)
        | Env.NumericValue z => ("numeric_value", PInt z)
        | Env.StringListValue l => ("string_list_value", PObj [("values", PList (map PStr l))])
        end].

End Catalog.

(** ** Filters of the document inventory ([render_document_inventory]
       and [render_store_files_view], src/app.py) *)

Module Filters.
Import Inventory.

(** [needle in hay] on strings. *)
Fixpoint contains (needle hay : string) : bool :=
  String.prefix needle hay
  || match hay with
     | EmptyString => false
     | String _ rest => contains needle rest
     end.

(** The "Apply filters" block.  [str_lower] is [str.lower]. *)
Definition apply_filters (str_lower : string -> string)
    (state_filter search_term : string) (documents : list document)
    : list document :=
  let filtered_docs :=
    if negb (String.eqb state_filter "All") then
      filter (fun d => state d = state_filter) documents
    else documents in
  if negb (String.eqb search_term "") then
    filter (fun d => contains (str_lower search_term) (str_lower (display_name d)) = true)
      filtered_docs
  else filtered_docs.

(** The documents shown: filtered, then sorted. *)
Definition filter_and_sort (str_lower : string -> string)
    (state_filter search_term sort_by : string) (documents : list document)
    : list document :=
  apply_sorting sort_by (apply_filters str_lower state_filter search_term documents).

End Filters.

(** ** Sizes for display ([format_bytes], src/app.py) *)

Module Format.

(** [num / den] rounded to the nearest integer, ties to the even one:
    the rounding of the ".2f" conversion. *)
Definition round_half_even (num den : Z) : Z :=
  let q := (num / den)%Z in
  let r := (num mod den)%Z in
  if (2 * r <? den)%Z then q
  else if (den <? 2 * r)%Z then (q + 1)%Z
  else if Z.even q then q else (q + 1)%Z.

(** A non-negative number of hundredths in the fixed notation with two
    decimals. *)
Definition fixed2 (hundredths : Z) : string :=
  pretty (hundredths / 100)%Z +:+ "."
  +:+ pretty (hundredths mod 100 / 10)%Z +:+ pretty (hundredths mod 10)%Z.

(** [f"{bytes_value / unit:.2f}"].  The quotient of an integer below
    2^53 by a power of two is an exact float, so that the digits shown
    are those of the exact quotient, rounded. *)
Definition in_unit (unit bytes_value : Z) : string :=
  fixed2 (round_half_even (100 * bytes_value) unit).

(** [format_bytes(bytes_value)] *)
Definition format_bytes (bytes_value : Z) : string :=
  if (bytes_value <? 1024)%Z then pretty bytes_value +:+ " B"
  else if (bytes_value <? 1024 ^ 2)%Z then in_unit 1024 bytes_value +:+ " KB"
  else if (bytes_value <? 1024 ^ 3)%Z then in_unit (1024 ^ 2) bytes_value +:+ " MB"
  else in_unit (1024 ^ 3) bytes_value +:+ " GB".

End Format.

(** ** The corpus of the backend ([get_or_create_corpus],
       src/backend/main.py) *)

Module Corpus.

Record corpus : Type := RagCorpus {
  corpus_name : string;
  corpus_display_name : string
}.

Inductive rag_call : Type :=
| ListCorpora
| CreateCorpus (display_name : string).

(** The replies of the RAG engine, given the corpora it holds. *)
Record rag_api : Type := RagApi {
  list_corpora_reply : list corpus -> list corpus * option exn;
  create_corpus_reply : string -> list corpus -> result corpus
}.

(** The global [rag_corpus], the corpora held remotely and the calls
    made. *)
Record backend_state : Type := BackendState {
  rag_corpus : option corpus;
  corpora : list corpus;
  rag_calls : list rag_call
}.

Definition CORPUS_NAME : string := "rag-corpus-gemini".

Definition rag_call_made (c : rag_call) : M backend_state unit :=
  modify (fun s => BackendState (rag_corpus s) (corpora s) (rag_calls s ++ [c])).

(** [rag_corpus = c] *)
Definition set_rag_corpus (c : corpus) : M backend_state unit :=
  modify (fun s => BackendState (Some c) (corpora s) (rag_calls s)).

(** [rag.create_corpus(display_name=...)] *)
Definition create_corpus (R : rag_api) (display_name : string) : M backend_state corpus :=
  exec rag_call_made (CreateCorpus display_name);
  fun s =>
    match create_corpus_reply R display_name (corpora s) with
    | Ok c => (Ok c, BackendState (rag_corpus s) (corpora s ++ [c]) (rag_calls s))
    | Raise e => (Raise e, s)
    end.

(** The first corpus yielded with the display name. *)
Fixpoint find_corpus (display_name : string) (yielded : list corpus) : option corpus :=
  match yielded with
  | [] => None
  | c :: rest =>
      if String.eqb (corpus_display_name c) display_name then Some c
      else find_corpus display_name rest
  end.

(** [get_or_create_corpus()] *)
Definition get_or_create_corpus (R : rag_api) : M backend_state corpus :=
  do s <- get;
  match rag_corpus s with
  | Some c => ret c
  | None =>
      try_except
        (exec rag_call_made ListCorpora;
         let '(yielded, failure) := list_corpora_reply R (corpora s) in
         match find_corpus CORPUS_NAME yielded with
         | Some c =>
             exec set_rag_corpus c;
             ret c
         | None =>
             match failure with
             | Some e => raise e
             | None =>
                 do c <- create_corpus R CORPUS_NAME;
                 exec set_rag_corpus c;
                 ret c
             end
         end)
        (fun e => raise e)
  end.

End Corpus.

(** ** Forms of the sidebar and of the store overview ([main] and
       [render_all_stores_overview], src/app.py) *)

Module Forms.
Import Stores.

(** [metadata[k] = v] on a dictionary kept in insertion order. *)
Fixpoint dict_set (k v : string) (d : list (string * string)) : list (string * string) :=
  match d with
  | [] => [(k, v)]
  | (k', v') :: rest =>
      if String.eqb k' k then (k', v) :: rest else (k', v') :: dict_set k v rest
  end.

(** The "Build metadata dict" block of the upload form. *)
Definition form_metadata (meta_key1 meta_val1 meta_key2 meta_val2 : string)
    : list (string * string) :=
  let metadata := [] in
  let metadata :=
    if negb (String.eqb meta_key1 "") && negb (String.eqb meta_val1 "")
    then dict_set meta_key1 meta_val1 metadata else metadata in
  if negb (String.eqb meta_key2 "") && negb (String.eqb meta_val2 "")
  then dict_set meta_key2 meta_val2 metadata else metadata.

(** What the two handlers below show. *)
Inductive notice : Type :=
| FailedToDeleteStore (e : exn)
| StoreDeleted (display_name : string).

(** The session and remote stores, and the notices shown. *)
Definition admin_state : Type := state * list notice.

Definition notify (n : notice) : M admin_state unit :=
  modify (fun s => (fst s, snd s ++ [n])).

(** [del st.session_state[key]] for a key that is present. *)
Definition del_session (key : string) : M admin_state unit :=
  modify (fun s =>
            (State (delete key (session (fst s))) (stores (fst s)) (calls (fst s))
               (shown (fst s)),
             snd s)).

(** [delete_store(client, store_name, force)]; [delete_reply] gives the
    stores the remote service holds after the call. *)
Definition delete_store
    (delete_reply : string -> bool -> list remote_store -> result (list remote_store))
    (store_name : string) (force : bool) : M admin_state bool :=
  try_except
    (fun s =>
       match delete_reply store_name force (stores (fst s)) with
       | Ok held =>
           (Ok true,
            (State (session (fst s)) held (calls (fst s)) (shown (fst s)), snd s))
       | Raise e => (Raise e, s)
       end)
    (fun e => exec notify (FailedToDeleteStore e); ret false).

(** The handler of the "Yes, Delete" button for the listed store
    [store]. *)
Definition confirm_delete_yes
    (delete_reply : string -> bool -> list remote_store -> result (list remote_store))
    (store : store_stats) : M admin_state unit :=
  do deleted <- delete_store delete_reply (stats_name store) true;
  if (deleted : bool) then
    exec notify (StoreDeleted (stats_display_name store));
    do s <- get;
    exec (match session (fst s) !! "confirm_delete_store" with
          | Some _ => del_session "confirm_delete_store"
          | None => ret tt
          end);
    do s <- get;
    if bool_decide (session (fst s) !! "store_name" = Some (stats_name store))
    then del_session "store_name"
    else ret tt
  else ret tt.

End Forms.

(** * Properties *)

(** ** Citation extractor *)

Section CitationFacts.
Import Citations.

Lemma present_truthy (f : option string) :
  truthy (enc_field f) = match present f with Some _ => true | None => false end.
Proof.
  destruct f as [s|]; simpl; [|reflexivity].
  destruct (String.eqb s ""); reflexivity.
Qed.

Lemma present_Some (f : option string) (s : string) :
  present f = Some s -> f = Some s.
Proof.
  destruct f as [x|]; simpl; [|discriminate].
  destruct (String.eqb x ""); congruence.
Qed.

(** A well-formed chunk appends its reference, if it has one, and
    never raises. *)
Lemma cite_chunk_enc (c : grounding_chunk) (citations : list pyval) :
  cite_chunk (enc_chunk c) citations =
  (Ok tt, citations ++ map PStr (option_list (reference c))).
Proof.
  destruct c as [[u t x]|]; unfold cite_chunk; simpl.
  - unfold bind, lift; simpl.
    rewrite !present_truthy.
    destruct (present u) as [u'|] eqn:Hu; simpl.
    { apply present_Some in Hu as ->. reflexivity. }
    destruct (present t) as [t'|] eqn:Ht; simpl.
    { apply present_Some in Ht as ->. reflexivity. }
    destruct (present x) as [x'|] eqn:Hx; simpl.
    { apply present_Some in Hx as ->. reflexivity. }
    unfold ret. by rewrite app_nil_r.
  - unfold ret. by rewrite app_nil_r.
Qed.

Lemma for_each_enc (chunks : list grounding_chunk) (citations : list pyval) :
  for_each (map enc_chunk chunks) cite_chunk citations =
  (Ok tt, citations ++ map PStr (references chunks)).
Proof.
  revert citations.
  induction chunks as [|c chunks IH]; intros citations; simpl.
  - unfold ret. by rewrite app_nil_r.
  - unfold bind at 1. rewrite cite_chunk_enc, IH.
    unfold references; simpl.
    destruct (reference c); simpl; by rewrite <- ?app_assoc.
Qed.

(** The walk over a non-empty chunk list is the [for] loop started
    with no citations. *)
Lemma extract_body_chunks (chunks : list pyval) :
  chunks <> [] ->
  extract_body (response_of_chunks chunks) [] = for_each chunks cite_chunk [].
Proof.
  destruct chunks as [|c chunks]; [congruence|]. intros _. reflexivity.
Qed.

Lemma omap_cons {A B} (f : A -> option B) (x : A) (l : list A) :
  omap f (x :: l) =
  match f x with Some y => y :: omap f l | None => omap f l end.
Proof. reflexivity. Qed.

Lemma extract_citations_collected (response : pyval) :
  extract_citations response = Ok (snd (extract_body response [])).
Proof.
  unfold extract_citations, extract_citations_m, bind, try_except, get, ret.
  destruct (extract_body response []) as [[[]|e] collected]; reflexivity.
Qed.

Lemma extract_citations_wellformed (chunks : list grounding_chunk) :
  extract_citations (enc_response chunks) = Ok (map PStr (references chunks)).
Proof.
  rewrite extract_citations_collected. unfold enc_response.
  destruct chunks as [|c chunks]; [reflexivity|].
  rewrite extract_body_chunks by discriminate.
  by rewrite for_each_enc.
Qed.

(** A chunk that raises leaves the citations collected so far as they
    are: every [append] is the last step of the loop body. *)
Lemma cite_chunk_raise (chunk : pyval) (e : exn) (citations : list pyval) :
  fst (cite_chunk chunk []) = Raise e ->
  cite_chunk chunk citations = (Raise e, citations).
Proof.
  unfold cite_chunk, bind, lift, ret, append, modify, slice_to.
  repeat (simpl;
    match goal with
    | |- context [if ?b then _ else _] => destruct b
    | |- context [match getattr ?v ?n with _ => _ end] => destruct (getattr v n)
    | |- context [match ?v with PNone => _ | _ => _ end] => destruct v
    end); simpl; congruence.
Qed.

Lemma for_each_raise (good : list grounding_chunk) (bad : pyval)
    (rest : list pyval) (e : exn) (citations : list pyval) :
  fst (cite_chunk bad []) = Raise e ->
  for_each (map enc_chunk good ++ bad :: rest) cite_chunk citations =
  (Raise e, citations ++ map PStr (references good)).
Proof.
  intros Hbad. revert citations.
  induction good as [|c good IH]; intros citations; simpl.
  - unfold bind. rewrite (cite_chunk_raise _ _ _ Hbad). by rewrite app_nil_r.
  - unfold bind at 1. rewrite cite_chunk_enc, IH.
    unfold references; simpl.
    destruct (reference c); simpl; by rewrite <- ?app_assoc.
Qed.

End CitationFacts.

Section CitationClaims.
Import Citations.

(** C4.  On a well-formed response the extractor returns, in chunk
    order, the reference of every chunk that has one, where the
    reference of a chunk is its URI if present, else its title, else
    the first 80 characters of its text; a chunk with none of the three
    (or with no retrieved context) contributes nothing.  In particular
    the chunks [{uri:"A"}, {title:"B"}, {text:"C"*100}] yield
    ["A", "B", "C"*80]. *)
Theorem extract_citations_precedence :
  (forall chunks : list grounding_chunk,
      extract_citations (enc_response chunks) = Ok (map PStr (omap reference chunks)))
  /\ (forall (rc : retrieved_context) (u : string),
        present (uri rc) = Some u -> reference (Some rc) = Some u)
  /\ (forall (rc : retrieved_context) (t : string),
        present (uri rc) = None -> present (title rc) = Some t ->
        reference (Some rc) = Some t)
  /\ (forall (rc : retrieved_context) (x : string),
        present (uri rc) = None -> present (title rc) = None ->
        present (text rc) = Some x ->
        reference (Some rc) = Some (String.substring 0 80 x))
  /\ (forall rc : retrieved_context,
        present (uri rc) = None -> present (title rc) = None ->
        present (text rc) = None -> reference (Some rc) = None)
  /\ reference None = None
  /\ extract_citations
       (enc_response [chunk_uri "A"; chunk_title "B";
                      chunk_text (repeat_char "C" 100)])
     = Ok [PStr "A"; PStr "B"; PStr (repeat_char "C" 80)].
Proof.
  split; [exact extract_citations_wellformed|].
  split; [|split; [|split; [|split; [|split]]]].
  - intros rc u Hu. simpl. by rewrite Hu.
  - intros rc t Hu Ht. simpl. by rewrite Hu, Ht.
  - intros rc x Hu Ht Hx. simpl. by rewrite Hu, Ht, Hx.
  - intros rc Hu Ht Hx. simpl. by rewrite Hu, Ht, Hx.
  - reflexivity.
  - rewrite extract_citations_wellformed. reflexivity.
Qed.

Lemma extract_citations_precedence_witness :
  reference (Some (RetrievedContext (Some "") (Some "B") (Some "C"))) = Some "B".
Proof.
  apply (proj1 (proj2 (proj2 extract_citations_precedence))); reflexivity.
Defined.

(** C3, as stated, fails: two chunks with the same URI give the same
    reference twice. *)
Lemma extract_citations_repeats :
  exists l : list pyval,
    extract_citations (enc_response [chunk_uri "A"; chunk_uri "A"]) = Ok l
    /\ ~ NoDup l.
Proof.
  exists [PStr "A"; PStr "A"]. split; [reflexivity|].
  intros Hnd. apply NoDup_cons_1_1 in Hnd. apply Hnd. left.
Qed.

(** C3, amended.  The extractor keeps repeats: on a well-formed
    response the list is, in chunk order, the references of the chunks
    that resolve to one, with exactly one entry for every such chunk, so
    a string occurs in it as many times as there are chunks whose
    reference it is. *)
Theorem extract_citations_multiplicity (chunks : list grounding_chunk) :
  exists refs : list string,
    extract_citations (enc_response chunks) = Ok (map PStr refs)
    /\ refs = omap reference chunks
    /\ length refs = length (filter (fun c => is_Some (reference c)) chunks)
    /\ forall s : string,
        length (filter (fun r => r = s) refs)
        = length (filter (fun c => reference c = Some s) chunks).
Proof.
  exists (references chunks). split; [apply extract_citations_wellformed|].
  unfold references. split; [reflexivity|]. split.
  - induction chunks as [|c chunks IH]; [reflexivity|].
    rewrite filter_cons, omap_cons.
    destruct (reference c) as [r|] eqn:Hr.
    + rewrite decide_True by eauto. simpl. by rewrite IH.
    + rewrite decide_False by (intros [? ?]; discriminate). exact IH.
  - intros s. induction chunks as [|c chunks IH]; [reflexivity|].
    rewrite (filter_cons _ c), omap_cons.
    destruct (reference c) as [r|] eqn:Hr.
    + rewrite filter_cons.
      destruct (decide (r = s)) as [->|Hne].
      * rewrite decide_True by reflexivity. simpl. by rewrite IH.
      * rewrite decide_False by congruence. exact IH.
    + rewrite decide_False by discriminate. exact IH.
Qed.

(** C5, as stated, fails: a failure raised while walking the chunks
    leaves the references collected before it in the result. *)
Lemma extract_citations_partial_on_failure :
  extract_body (response_of_chunks [enc_chunk (chunk_uri "A"); chunk_without_uri]) []
  = (Raise (AttributeError "uri"), [PStr "A"])
  /\ extract_citations (response_of_chunks [enc_chunk (chunk_uri "A"); chunk_without_uri])
     = Ok [PStr "A"]
  /\ extract_citations (response_of_chunks [enc_chunk (chunk_uri "A"); chunk_without_uri])
     <> Ok [].
Proof. split; [reflexivity|]. split; [reflexivity|discriminate]. Qed.

(** C5, amended.  The extractor never raises.  It returns the empty
    list when the response has no candidates attribute, when the
    candidates cannot be indexed, or when the first candidate has no
    (or an empty) grounding metadata; when a failure is raised while
    the chunks are walked it returns the references collected from the
    chunks before the failing one. *)
Theorem extract_citations_total (response : pyval) :
  (exists l : list pyval, extract_citations response = Ok l)
  /\ (hasattr response "candidates" = false -> extract_citations response = Ok [])
  /\ (forall (candidates : pyval) (e : exn),
        getattr response "candidates" = Ok candidates ->
        index0 candidates = Raise e ->
        extract_citations response = Ok [])
  /\ (forall candidates candidate : pyval,
        getattr response "candidates" = Ok candidates ->
        index0 candidates = Ok candidate ->
        truthy (getattr_default candidate "grounding_metadata" PNone) = false ->
        extract_citations response = Ok [])
  /\ (forall (good : list grounding_chunk) (bad : pyval) (rest : list pyval) (e : exn),
        response = response_of_chunks (map enc_chunk good ++ bad :: rest) ->
        fst (cite_chunk bad []) = Raise e ->
        extract_citations response = Ok (map PStr (references good))).
Proof.
  split; [rewrite extract_citations_collected; eauto|].
  split; [|split; [|split]].
  - intros Hno. rewrite extract_citations_collected.
    unfold extract_body. rewrite Hno. reflexivity.
  - intros candidates e Hc Hi. rewrite extract_citations_collected.
    unfold extract_body, hasattr. unfold getattr in Hc.
    destruct (attr_of response "candidates") as [v|] eqn:Hv; [|discriminate].
    injection Hc as ->. unfold bind, lift, getattr. rewrite Hv, Hi. reflexivity.
  - intros candidates candidate Hc Hi Hgm. rewrite extract_citations_collected.
    unfold extract_body, hasattr. unfold getattr in Hc.
    destruct (attr_of response "candidates") as [v|] eqn:Hv; [|discriminate].
    injection Hc as ->. unfold bind, lift, getattr. rewrite Hv, Hi, Hgm. reflexivity.
  - intros good bad rest e -> Hbad. rewrite extract_citations_collected.
    rewrite extract_body_chunks by (destruct good; discriminate).
    by rewrite (for_each_raise good bad rest e [] Hbad).
Qed.

Lemma extract_citations_total_witness :
  extract_citations (PObj []) = Ok []
  /\ extract_citations (PObj [("candidates", PList [])]) = Ok []
  /\ extract_citations (PObj [("candidates", PList [PObj []])]) = Ok []
  /\ extract_citations
       (response_of_chunks (map enc_chunk [chunk_uri "A"] ++ chunk_without_uri :: []))
     = Ok (map PStr (references [chunk_uri "A"])).
Proof.
  split; [|split; [|split]].
  - apply (proj1 (proj2 (extract_citations_total (PObj [])))). reflexivity.
  - apply (proj1 (proj2 (proj2 (extract_citations_total
             (PObj [("candidates", PList [])]))))
             (PList []) IndexError); reflexivity.
  - apply (proj1 (proj2 (proj2 (proj2 (extract_citations_total
             (PObj [("candidates", PList [PObj []])])))))
             (PList [PObj []]) (PObj [])); reflexivity.
  - apply (proj2 (proj2 (proj2 (proj2 (extract_citations_total _))))
             [chunk_uri "A"] chunk_without_uri [] (AttributeError "uri"));
      reflexivity.
Defined.

End CitationClaims.

(** ** Store registry *)

Section StoreFacts.
Import Env Stores.

Lemma or_zero_default (x : option Z) : or_zero x = default 0%Z x.
Proof.
  destruct x as [z|]; simpl; [|reflexivity].
  destruct (Z.eqb_spec z 0); congruence.
Qed.

Lemma stats_of_counts (store : remote_store) : counts_of store (stats_of store).
Proof. unfold counts_of, stats_of; simpl. by rewrite !or_zero_default. Qed.

Lemma listed_of_counts (store : remote_store) : counts_of store (listed_of store).
Proof. unfold counts_of, listed_of; simpl. by rewrite !or_zero_default. Qed.

(** C9.  Every record [get_store_stats] returns and every record in
    the list [list_all_stores] returns is built from a store the remote
    service reported; its total is the sum of its active, pending and
    failed counts, each of which is the remote count, or 0 where the
    remote service reported none. *)
Theorem store_totals (A : store_api) (s : state) :
  (forall (store_name : string) (stats : store_stats) (s' : state),
      get_store_stats A store_name s = (Ok (Some stats), s') ->
      exists store : remote_store,
        get_reply A store_name (stores s) = Ok store /\ counts_of store stats)
  /\ (forall (listed : list store_stats) (s' : state),
        list_all_stores A s = (Ok listed, s') ->
        Forall (fun stats =>
                  exists store : remote_store,
                    store ∈ fst (list_reply A (stores s)) /\ counts_of store stats)
               listed).
Proof.
  split.
  - intros store_name stats s'.
    unfold get_store_stats, try_except, bind, call, modify, get, lift, ret; simpl.
    destruct (get_reply A store_name (stores s)) as [store|e]; simpl.
    + intros [= <- _]. exists store. split; [reflexivity|apply stats_of_counts].
    + discriminate.
  - intros listed s'.
    unfold list_all_stores, try_except, bind, call, modify, get, raise, ret; simpl.
    destruct (list_reply A (stores s)) as [yielded [e|]]; simpl.
    + intros [= <- _]. constructor.
    + intros [= <- _]. apply Forall_forall. intros stats Hin.
      apply list_elem_of_fmap in Hin as (store & -> & Hstore).
      exists store. split; [exact Hstore|apply listed_of_counts].
Qed.

End StoreFacts.

Section StoreClaims.
Import Env Stores.

Lemma store_totals_witness :
  (exists store : remote_store,
      get_reply sample_api "fileSearchStores/docs" [sample_store] = Ok store
      /\ counts_of store (stats_of sample_store))
  /\ Forall (fun stats =>
               exists store : remote_store,
                 store ∈ fst (list_reply sample_api [sample_store])
                 /\ counts_of store stats)
            [listed_of sample_store].
Proof.
  split.
  - apply (proj1 (store_totals sample_api (fresh_state [sample_store]))
             "fileSearchStores/docs" (stats_of sample_store)
             (State ∅ [sample_store] [GetStore "fileSearchStores/docs"] [])).
    reflexivity.
  - apply (proj2 (store_totals sample_api (fresh_state [sample_store]))
             [listed_of sample_store]
             (State ∅ [sample_store] [ListStores] [])).
    reflexivity.
Defined.

(** C8.  When a call of [get_or_create_file_search_store] returns an
    identifier, a second call in the same session returns the same
    identifier and changes nothing: it makes no remote call and creates
    no store.  Unless a store identifier is configured, the identifier
    returned by the first call is the one cached in the session. *)
Theorem get_or_create_twice (A : store_api) (configured : option string)
    (display_name : string) (s s1 : state) (store_name : string) :
  get_or_create_file_search_store A configured display_name s
  = (Ok (Some store_name), s1) ->
  get_or_create_file_search_store A configured display_name s1
  = (Ok (Some store_name), s1)
  /\ (Upload.nonempty configured = None ->
      session s1 !! "store_name" = Some store_name).
Proof.
  unfold get_or_create_file_search_store.
  destruct (Upload.nonempty configured) as [c|].
  { unfold ret. intros [= <- <-]. split; [reflexivity|discriminate]. }
  unfold bind at 1. unfold get at 1.
  destruct (session s !! "store_name") as [cached|] eqn:Hs.
  { unfold ret. intros [= <- <-]. unfold bind, get. rewrite Hs. split; [reflexivity|auto]. }
  intros Hfirst.
  assert (session s1 !! "store_name" = Some store_name) as Hs1.
  { revert Hfirst.
    cbv [bind try_except call set_store_name create modify raise ret show].
    simpl.
    destruct (list_reply A (stores s)) as [yielded failure].
    destruct (find_store display_name yielded) as [found|]; simpl.
    { intros [= <- <-]. simpl. apply lookup_insert_eq. }
    destruct failure as [e|]; simpl;
      (destruct (create_reply A display_name (stores s)) as [store|e']; simpl;
       [intros [= <- <-]; simpl; apply lookup_insert_eq | discriminate]). }
  split; [|auto].
  unfold bind, get. rewrite Hs1. reflexivity.
Qed.

Lemma get_or_create_twice_witness :
  get_or_create_file_search_store sample_api None "rag-streamlit-store"
    (State (<["store_name" := "fileSearchStores/rag-streamlit-store"]> ∅)
       [RemoteStore "fileSearchStores/rag-streamlit-store" "rag-streamlit-store"
          None None None None "2025-01-01T00:00:00Z" "2025-01-01T00:00:00Z"]
       [ListStores; CreateStore "rag-streamlit-store"] [])
  = (Ok (Some "fileSearchStores/rag-streamlit-store"),
     State (<["store_name" := "fileSearchStores/rag-streamlit-store"]> ∅)
       [RemoteStore "fileSearchStores/rag-streamlit-store" "rag-streamlit-store"
          None None None None "2025-01-01T00:00:00Z" "2025-01-01T00:00:00Z"]
       [ListStores; CreateStore "rag-streamlit-store"] []).
Proof.
  apply (get_or_create_twice sample_api None "rag-streamlit-store" (fresh_state [])).
  reflexivity.
Defined.

End StoreClaims.

(** ** State preserved by a computation *)

Section Preserves.
Context {S : Type} (R : relation S) `{!PreOrder R}.

Lemma preserves_ret {A} (a : A) : preserves R (ret a).
Proof. intros s. reflexivity. Qed.

Lemma preserves_raise {A} (e : exn) : preserves R (@raise S A e).
Proof. intros s. reflexivity. Qed.

Lemma preserves_lift {A} (r : result A) : preserves R (lift r).
Proof. intros s. reflexivity. Qed.

Lemma preserves_modify (f : S -> S) : (forall s, R s (f s)) -> preserves R (modify f).
Proof. intros Hf s. apply Hf. Qed.

Lemma preserves_bind {A B} (m : M S A) (k : A -> M S B) :
  preserves R m -> (forall a, preserves R (k a)) -> preserves R (bind m k).
Proof.
  intros Hm Hk s. unfold bind. specialize (Hm s).
  destruct (m s) as [[a|e] s1]; simpl in *; [|exact Hm].
  etransitivity; [exact Hm|apply Hk].
Qed.

Lemma preserves_try_except {A} (body : M S A) (handler : exn -> M S A) :
  preserves R body -> (forall e, preserves R (handler e)) ->
  preserves R (try_except body handler).
Proof.
  intros Hb Hh s. unfold try_except. specialize (Hb s).
  destruct (body s) as [[a|e] s1]; simpl in *; [exact Hb|].
  etransitivity; [exact Hb|apply Hh].
Qed.

Lemma preserves_try_finally {A} (body : M S A) (cleanup : M S unit) :
  preserves R body -> preserves R cleanup -> preserves R (try_finally body cleanup).
Proof.
  intros Hb Hc s. unfold try_finally. specialize (Hb s).
  destruct (body s) as [r s1]; simpl in *. specialize (Hc s1).
  destruct (cleanup s1) as [[[]|e] s2]; simpl in *; etransitivity; eauto.
Qed.

End Preserves.

(** ** Waiting for an operation touches neither files nor uploads *)

Section PollingFrame.
Import Env Polling Upload.

#[local] Instance quiet_preorder : PreOrder quiet.
Proof.
  split.
  - intros w. split; reflexivity.
  - intros w1 w2 w3 [Hf12 Hu12] [Hf23 Hu23]. split; congruence.
Qed.

Lemma time_time_quiet : preserves quiet time_time.
Proof. intros w. reflexivity. Qed.

Lemma show_quiet (e : ui_event) : preserves quiet (show e).
Proof. intros w. split; reflexivity. Qed.

Lemma advance_quiet (d : Q) : preserves quiet (advance d).
Proof. intros w. split; reflexivity. Qed.

Lemma sleep_then_get_quiet (P : platform) (seconds : Q) (current : pyval) :
  preserves quiet (sleep_then_get P seconds current).
Proof.
  intros w. split; [reflexivity|]. simpl.
  unfold uploads. rewrite omap_app. simpl. by rewrite app_nil_r.
Qed.

Create HintDb quiet.
#[local] Hint Resolve preserves_ret preserves_raise preserves_lift time_time_quiet
  show_quiet advance_quiet sleep_then_get_quiet : quiet.

Ltac quiet_step :=
  first
    [ apply preserves_bind; [typeclasses eauto| |intros ?]
    | apply preserves_try_finally; [typeclasses eauto| |]
    | apply preserves_try_except; [typeclasses eauto| |intros ?]
    | match goal with
      | |- preserves _ (if ?b then _ else _) => destruct b
      | |- preserves _ (match ?x with Returned _ => _ | _ => _ end) => destruct x
      end
    | solve [auto with quiet] ].

Lemma poll_loop_quiet (P : platform) (fuel : nat) (deadline : Q)
    (timeout_seconds : Z) (current : pyval) :
  preserves quiet (poll_loop P fuel deadline timeout_seconds current).
Proof.
  revert current.
  induction fuel as [|fuel IH]; intros current; simpl; repeat quiet_step.
Qed.

Lemma after_loop_quiet (P : platform) (current : pyval) :
  preserves quiet (after_loop P current).
Proof. unfold after_loop. repeat quiet_step. Qed.

Lemma after_exit_quiet (P : platform) (exit : loop_exit) :
  preserves quiet (after_exit P exit).
Proof.
  pose proof (after_loop_quiet P) as Hafter.
  destruct exit; simpl; repeat quiet_step.
Qed.

Lemma wait_for_operation_quiet (P : platform) (fuel : nat) (operation : pyval)
    (timeout_seconds : Z) :
  preserves quiet (wait_for_operation P fuel operation timeout_seconds).
Proof.
  unfold wait_for_operation.
  pose proof (poll_loop_quiet P fuel) as Hloop.
  pose proof (after_exit_quiet P) as Hafter.
  repeat quiet_step.
Qed.

End PollingFrame.

(** ** Document upload *)

Section UploadFacts.
Import Env Polling Upload.

Lemma uploads_snoc_upload (cs : list remote_call) (store_name path : string)
    (config : upload_config) :
  uploads (cs ++ [UploadToFileSearchStore store_name path config])
  = uploads cs ++ [(store_name, path, config)].
Proof. unfold uploads. by rewrite omap_app. Qed.

Lemma staged_then_removed (path : string) (files : gset string) :
  ({[path]} ∪ files) ∖ {[path]} = files ∖ {[path]}.
Proof.
  apply set_eq. intros x.
  rewrite !elem_of_difference, elem_of_union, elem_of_singleton. tauto.
Qed.

Lemma not_staged_removed (path : string) (files : gset string) :
  path ∉ files -> files = files ∖ {[path]}.
Proof.
  intros Hnot. apply set_eq. intros x.
  rewrite elem_of_difference, elem_of_singleton.
  split; [|tauto]. intros Hx. split; [exact Hx|]. intros ->. contradiction.
Qed.

Lemma nonempty_path (path : string) : path <> "" -> nonempty (Some path) = Some path.
Proof.
  intros Hne. simpl. destruct (String.eqb_spec path ""); [contradiction|reflexivity].
Qed.

(** The [finally] clause with [temp_path] set: afterwards the file is
    gone and nothing else has changed. *)
Lemma upload_cleanup_removes (path : string) (w : world) :
  path <> "" ->
  exists w' : world,
    upload_cleanup (Some path, w) = (Ok tt, (Some path, w'))
    /\ fs w' = fs w ∖ {[path]}
    /\ remote_calls w' = remote_calls w.
Proof.
  intros Hne. unfold upload_cleanup, bind, get_temp_path.
  cbn [fst snd]. rewrite (nonempty_path _ Hne).
  unfold in_world, path_exists, os_remove, ret; simpl.
  destruct (bool_decide (path ∈ fs w)) eqn:Hin; simpl; rewrite ?Hin.
  - eexists. split; [reflexivity|]. simpl. split; reflexivity.
  - exists w. split; [reflexivity|]. split; [|reflexivity].
    apply bool_decide_eq_false in Hin. by apply not_staged_removed.
Qed.

(** Once the payload is staged, the upload call is made with the
    config built from the arguments, and the staged file is removed
    whatever happens afterwards. *)
Lemma upload_document_staged (P : platform) (fuel : nat) (store_name : string)
    (file : uploaded_file) (display_name : option string)
    (metadata : option (list (string * pyval))) (chunk_size chunk_overlap : Z)
    (w : world) (path : string) :
  named_temporary_file P (splitext_ext P (file_name file)) (fs w) = Ok path ->
  tmp_write P path (file_value file) = Ok tt ->
  path <> "" ->
  let w' := snd (upload_document P fuel store_name file display_name metadata
                   chunk_size chunk_overlap w) in
  uploads (remote_calls w')
  = uploads (remote_calls w)
    ++ [(store_name, path,
         build_config P display_name metadata chunk_size chunk_overlap)]
  /\ fs w' = fs w ∖ {[path]}.
Proof.
  intros Hname Hwrite Hne.
  unfold upload_document, try_finally, try_except, upload_body.
  cbv [bind in_world open_temporary_file set_temp_path modify lift
       upload_to_file_search_store call ret fst snd].
  rewrite Hname, Hwrite.
  set (config := build_config P display_name metadata chunk_size chunk_overlap).
  set (w1 := World _ _ _ _ _).
  assert (fs w1 = {[path]} ∪ fs w) as Hfs1 by reflexivity.
  assert (uploads (remote_calls w1)
          = uploads (remote_calls w) ++ [(store_name, path, config)]) as Hup1
    by apply uploads_snoc_upload.
  clearbody w1.
  destruct (upload_reply P store_name path config) as [upload_op|e].
  - destruct (wait_for_operation P fuel upload_op 300 w1) as [r w2] eqn:Hwait.
    pose proof (wait_for_operation_quiet P fuel upload_op 300 w1) as [Hfs2 Hup2].
    rewrite Hwait in Hfs2, Hup2. cbn [snd] in Hfs2, Hup2.
    destruct r as [b|e].
    + destruct (upload_cleanup_removes path w2 Hne) as (w3 & -> & Hfs3 & Hc3).
      cbn [fst snd]. rewrite Hc3, Hup2, Hup1, Hfs3, Hfs2, Hfs1.
      split; [reflexivity|apply staged_then_removed].
    + cbv [show modify].
      destruct (upload_cleanup_removes path
                  (World (clock w2) (fs w2) (polls w2) (remote_calls w2)
                     (ui w2 ++ [UploadFailed e])) Hne)
        as (w3 & -> & Hfs3 & Hc3).
      cbn [fst snd]. rewrite Hc3, Hfs3. cbn [fs remote_calls].
      rewrite Hup2, Hup1, Hfs2, Hfs1.
      split; [reflexivity|apply staged_then_removed].
  - cbv [show modify].
    destruct (upload_cleanup_removes path
                (World (clock w1) (fs w1) (polls w1) (remote_calls w1)
                   (ui w1 ++ [UploadFailed e])) Hne)
      as (w3 & -> & Hfs3 & Hc3).
    cbn [fst snd]. rewrite Hc3, Hfs3. cbn [fs remote_calls].
    rewrite Hup1, Hfs1.
    split; [reflexivity|apply staged_then_removed].
Qed.

End UploadFacts.

Section UploadClaims.
Import Env Polling Upload.

(** C2, as stated, fails: with an overlap of 200 tokens and chunks of
    100 tokens the upload call is made, with both values as given, and
    the upload succeeds. *)
Lemma upload_overlap_not_validated :
  (200 >= 100)%Z
  /\ fst (upload_document (sample_platform (Some 1%nat) PNone) 200
            "fileSearchStores/docs" sample_file (Some "Notes") None 100 200
            initial_world)
     = Ok (Some true)
  /\ uploads (remote_calls
       (snd (upload_document (sample_platform (Some 1%nat) PNone) 200
               "fileSearchStores/docs" sample_file (Some "Notes") None 100 200
               initial_world)))
     = [("fileSearchStores/docs", "/tmp/tmpk3x9.txt",
         UploadConfig 100 200 (Some "Notes") None)].
Proof. split; [lia|]. split; vm_compute; reflexivity. Qed.

(** C2, amended.  A call with [chunk_overlap >= chunk_size] is not
    validated and nothing is clamped: once the payload is staged in the
    temporary file, exactly one upload call is made to the remote
    service, and its chunking config carries the chunk size and the
    overlap as they were given. *)
Theorem upload_chunking_passed_through (P : platform) (fuel : nat)
    (store_name : string) (file : uploaded_file) (display_name : option string)
    (metadata : option (list (string * pyval))) (chunk_size chunk_overlap : Z)
    (w : world) (path : string) :
  (chunk_overlap >= chunk_size)%Z ->
  named_temporary_file P (splitext_ext P (file_name file)) (fs w) = Ok path ->
  tmp_write P path (file_value file) = Ok tt ->
  path <> "" ->
  exists config : upload_config,
    uploads (remote_calls
      (snd (upload_document P fuel store_name file display_name metadata
              chunk_size chunk_overlap w)))
    = uploads (remote_calls w) ++ [(store_name, path, config)]
    /\ max_tokens_per_chunk config = chunk_size
    /\ max_overlap_tokens config = chunk_overlap.
Proof.
  intros _ Hname Hwrite Hne.
  exists (build_config P display_name metadata chunk_size chunk_overlap).
  split; [|split; reflexivity].
  apply (upload_document_staged P fuel store_name file display_name metadata
           chunk_size chunk_overlap w path Hname Hwrite Hne).
Qed.

Lemma upload_chunking_passed_through_witness :
  exists config : upload_config,
    uploads (remote_calls
      (snd (upload_document (sample_platform (Some 1%nat) PNone) 200
              "fileSearchStores/docs" sample_file None None 100 200 initial_world)))
    = uploads (remote_calls initial_world)
      ++ [("fileSearchStores/docs", "/tmp/tmpk3x9.txt", config)]
    /\ max_tokens_per_chunk config = 100%Z
    /\ max_overlap_tokens config = 200%Z.
Proof.
  apply upload_chunking_passed_through;
    [lia | reflexivity | reflexivity | discriminate].
Defined.

(** C10.  For a non-empty metadata mapping, the config of the upload
    call carries a [custom_metadata] list with exactly one record per
    entry of the mapping, in the mapping's order, and the record of the
    entry [(k, v)] has key [k] and the string value [str(v)]: no entry is
    sent as a numeric or string-list value. *)
Theorem upload_metadata_as_strings (P : platform) (fuel : nat)
    (store_name : string) (file : uploaded_file) (display_name : option string)
    (metadata : list (string * pyval)) (chunk_size chunk_overlap : Z)
    (w : world) (path : string) :
  metadata <> [] ->
  named_temporary_file P (splitext_ext P (file_name file)) (fs w) = Ok path ->
  tmp_write P path (file_value file) = Ok tt ->
  path <> "" ->
  exists (config : upload_config) (entries : list metadata_entry),
    uploads (remote_calls
      (snd (upload_document P fuel store_name file display_name (Some metadata)
              chunk_size chunk_overlap w)))
    = uploads (remote_calls w) ++ [(store_name, path, config)]
    /\ custom_metadata config = Some entries
    /\ length entries = length metadata
    /\ forall (i : nat) (k : string) (v : pyval),
         metadata !! i = Some (k, v) ->
         entries !! i = Some (MetadataEntry k (StringValue (py_str P v))).
Proof.
  intros Hmeta Hname Hwrite Hne.
  exists (build_config P display_name (Some metadata) chunk_size chunk_overlap),
    (metadata_entries P metadata).
  split; [|split; [|split]].
  - apply (upload_document_staged P fuel store_name file display_name
             (Some metadata) chunk_size chunk_overlap w path Hname Hwrite Hne).
  - destruct metadata as [|kv rest]; [congruence|reflexivity].
  - unfold metadata_entries. apply length_map.
  - intros i k v Hi. unfold metadata_entries.
    rewrite list_lookup_fmap, Hi. reflexivity.
Qed.

Lemma upload_metadata_as_strings_witness :
  exists (config : upload_config) (entries : list metadata_entry),
    uploads (remote_calls
      (snd (upload_document (sample_platform (Some 1%nat) PNone) 200
              "fileSearchStores/docs" sample_file None
              (Some [("year", PInt 2024); ("tags", PList [PStr "a"; PStr "b"])])
              400 40 initial_world)))
    = uploads (remote_calls initial_world)
      ++ [("fileSearchStores/docs", "/tmp/tmpk3x9.txt", config)]
    /\ custom_metadata config = Some entries
    /\ length entries = 2%nat
    /\ forall (i : nat) (k : string) (v : pyval),
         [("year", PInt 2024); ("tags", PList [PStr "a"; PStr "b"])] !! i = Some (k, v) ->
         entries !! i
         = Some (MetadataEntry k
                   (StringValue (py_str (sample_platform (Some 1%nat) PNone) v))).
Proof.
  apply upload_metadata_as_strings;
    [discriminate | reflexivity | reflexivity | discriminate].
Defined.

(** The sibling of C7 in [src/app.py]: once the payload is staged, the
    temporary file is gone when [upload_document] returns, on every
    path through the upload call and the polling loop. *)
Lemma upload_document_releases_temp_file (P : platform) (fuel : nat)
    (store_name : string) (file : uploaded_file) (display_name : option string)
    (metadata : option (list (string * pyval))) (chunk_size chunk_overlap : Z)
    (w : world) (path : string) :
  named_temporary_file P (splitext_ext P (file_name file)) (fs w) = Ok path ->
  tmp_write P path (file_value file) = Ok tt ->
  path <> "" ->
  path ∉ fs (snd (upload_document P fuel store_name file display_name metadata
                    chunk_size chunk_overlap w)).
Proof.
  intros Hname Hwrite Hne.
  destruct (upload_document_staged P fuel store_name file display_name metadata
              chunk_size chunk_overlap w path Hname Hwrite Hne) as [_ ->].
  rewrite elem_of_difference, elem_of_singleton. tauto.
Qed.

(** In [src/app.py] too a file stays behind on one path: [temp_path] is
    set after the write, so when the write raises the [finally] clause
    has no path to remove. *)
Lemma upload_document_write_fails (P : platform) (fuel : nat)
    (store_name : string) (file : uploaded_file) (display_name : option string)
    (metadata : option (list (string * pyval))) (chunk_size chunk_overlap : Z)
    (w : world) (path : string) (e : exn) :
  named_temporary_file P (splitext_ext P (file_name file)) (fs w) = Ok path ->
  tmp_write P path (file_value file) = Raise e ->
  upload_document P fuel store_name file display_name metadata
    chunk_size chunk_overlap w
  = (Ok (Some false),
     World (clock w) ({[path]} ∪ fs w) (polls w) (remote_calls w)
       (ui w ++ [UploadFailed e])).
Proof.
  intros Hname Hwrite.
  unfold upload_document, try_finally, try_except, upload_body, upload_cleanup.
  cbv [bind in_world open_temporary_file lift show modify ret get_temp_path
       fst snd].
  rewrite Hname, Hwrite. reflexivity.
Qed.

(** In the backend endpoint the removal is the statement after the
    import call, so a failing import leaves the file behind. *)
Lemma backend_upload_import_fails (R : Backend.rag_platform) (file : uploaded_file)
    (files : gset string) (corpus : string) (e : exn) :
  Backend.get_or_create_corpus R = Ok corpus ->
  Backend.buffer_write R ("/tmp/" +:+ file_name file) (file_value file) = Ok tt ->
  Backend.import_files R corpus ["/tmp/" +:+ file_name file] 512 50 = Raise e ->
  Backend.upload_document R file files
  = (Raise (HTTPException 500 (Backend.str_of_exn R e)),
     {["/tmp/" +:+ file_name file]} ∪ files).
Proof.
  intros Hcorpus Hwrite Himport.
  unfold Backend.upload_document, try_except.
  cbv [bind lift Backend.open_wb modify raise].
  rewrite Hcorpus, Hwrite, Himport. reflexivity.
Qed.

(** C7 fails on the backend endpoint: when the import call raises, the
    request ends with an HTTP 500 error and the staged file
    [/tmp/notes.txt] is still on disk. *)
Theorem backend_upload_leaves_temp_file :
  fst (Backend.upload_document Backend.failing_rag sample_file ∅)
  = Raise (HTTPException 500 "import failed")
  /\ "/tmp/notes.txt" ∈ snd (Backend.upload_document Backend.failing_rag sample_file ∅).
Proof.
  rewrite (backend_upload_import_fails Backend.failing_rag sample_file ∅
             "corpora/rag-corpus-gemini" (RemoteError "import failed"))
    by reflexivity.
  split; [reflexivity|].
  simpl. apply elem_of_union_l, elem_of_singleton. reflexivity.
Qed.

End UploadClaims.

(** ** Sorting of the inventory *)

Section SortFacts.
Import Inventory.
Context {A : Type} (before : A -> A -> bool).

Lemma Sorted_weaken (R1 R2 : A -> A -> Prop) (l : list A) :
  (forall a b, R1 a b -> R2 a b) -> Sorted R1 l -> Sorted R2 l.
Proof.
  intros Himpl Hl. induction Hl as [|x l Hl IH Hhd]; constructor; [exact IH|].
  destruct Hhd; constructor. by apply Himpl.
Qed.

Lemma insert_sorted_perm (x : A) (l : list A) : insert_sorted before x l ≡ₚ x :: l.
Proof.
  induction l as [|y l IH]; simpl; [reflexivity|].
  destruct (before y x); [|reflexivity].
  rewrite IH. apply Permutation_swap.
Qed.

Lemma stable_sort_perm (l : list A) : stable_sort before l ≡ₚ l.
Proof.
  induction l as [|x l IH]; simpl; [reflexivity|].
  unfold stable_sort in *. simpl. rewrite insert_sorted_perm. by rewrite IH.
Qed.

Hypothesis before_asym : forall a b, before a b = true -> before b a = false.

Lemma insert_sorted_Sorted (x : A) (l : list A) :
  Sorted (in_order before) l -> Sorted (in_order before) (insert_sorted before x l).
Proof.
  induction l as [|y l IH]; intros Hl; simpl.
  - repeat constructor.
  - apply Sorted_inv in Hl as [Hl Hhd].
    destruct (before y x) eqn:Hyx.
    + constructor; [by apply IH|].
      destruct l as [|z l]; simpl.
      * constructor. unfold in_order. by apply before_asym.
      * apply HdRel_inv in Hhd.
        destruct (before z x); constructor; [exact Hhd|].
        unfold in_order. by apply before_asym.
    + constructor; [by constructor|]. constructor. exact Hyx.
Qed.

Lemma stable_sort_Sorted (l : list A) :
  Sorted (in_order before) (stable_sort before l).
Proof.
  induction l as [|x l IH]; [constructor|].
  unfold stable_sort in *. simpl. by apply insert_sorted_Sorted.
Qed.

End SortFacts.

Section SortClaims.
Import Inventory.

Lemma string_ltb_asym (a b : string) : String.ltb a b = true -> String.ltb b a = false.
Proof.
  unfold String.ltb. rewrite (String.compare_antisym a b).
  destruct (String.compare b a); simpl; congruence.
Qed.

Lemma string_ltb_false_leb (a b : string) :
  String.ltb b a = false -> String.leb a b = true.
Proof.
  unfold String.ltb, String.leb. rewrite (String.compare_antisym a b).
  destruct (String.compare b a); simpl; congruence.
Qed.

(** C6, as stated, fails: the names ["Zeta","alpha","Beta"] come out
    as ["Beta","Zeta","alpha"], with "Zeta" in front of "alpha" although
    "alpha" is the smaller one when case is ignored. *)
Lemma name_sort_is_case_sensitive :
  map display_name (apply_sorting "Name" (map named ["Zeta"; "alpha"; "Beta"]))
  = ["Beta"; "Zeta"; "alpha"]
  /\ map display_name (apply_sorting "Name" (map named ["Zeta"; "alpha"; "Beta"]))
     <> ["alpha"; "Beta"; "Zeta"]
  /\ String.ltb (lower "alpha") (lower "Zeta") = true.
Proof. split; [reflexivity|]. split; [discriminate|reflexivity]. Qed.

(** C6, amended.  Sorting by the Name key compares display names by
    code point, so case matters and upper-case letters come first: the
    result is a rearrangement of the documents in which every document's
    display name is less than or equal to the next one's in that order,
    and the names ["Zeta","alpha","Beta"] come out as
    ["Beta","Zeta","alpha"]. *)
Theorem name_sort_by_code_point :
  (forall docs : list document,
      apply_sorting "Name" docs ≡ₚ docs
      /\ Sorted (fun a b => String.leb (display_name a) (display_name b) = true)
           (apply_sorting "Name" docs))
  /\ map display_name (apply_sorting "Name" (map named ["Zeta"; "alpha"; "Beta"]))
     = ["Beta"; "Zeta"; "alpha"].
Proof.
  split; [|reflexivity].
  intros docs.
  change (apply_sorting "Name" docs)
    with (stable_sort (fun y x => String.ltb (display_name y) (display_name x)) docs).
  split; [apply stable_sort_perm|].
  eapply Sorted_weaken; [|apply stable_sort_Sorted].
  - intros a b Hab. apply string_ltb_false_leb. exact Hab.
  - intros a b. apply string_ltb_asym.
Qed.

End SortClaims.

(** ** Polling loop *)

Section PollingFacts.
Import Env Polling.

(** The loop, unfolded once. *)
Lemma poll_loop_eq (P : platform) (fuel : nat) (deadline : Q) (D : Z) (current : pyval) :
  poll_loop P fuel deadline D current =
  (do done <- lift (getattr current "done");
   if truthy done then ret (LoopDone current)
   else
     match fuel with
     | O => ret OutOfFuel
     | S fuel' =>
         do now <- time_time;
         if Qle_bool deadline now then
           exec show (StatusError TimedOut);
           ret (Returned false)
         else
           do now' <- time_time;
           let elapsed := (now' - (deadline - inject_Z D))%Q in
           do ratio <- lift (divide elapsed (inject_Z D));
           let progress := Qmin ratio (99 # 100) in
           exec show (ProgressBar progress);
           exec show (StatusText Processing);
           do next <- sleep_then_get P 3 current;
           poll_loop P fuel' deadline D next
     end).
Proof. destruct fuel; reflexivity. Qed.

(** Done: the loop is left at once. *)
Lemma poll_loop_done (P : platform) (fuel : nat) (deadline : Q) (D : Z)
    (current : pyval) (w : world) :
  is_done current ->
  poll_loop P fuel deadline D current w = (Ok (LoopDone current), w).
Proof.
  intros (d & Hd & Ht). rewrite poll_loop_eq.
  cbv [bind lift]. rewrite Hd, Ht. reflexivity.
Qed.

(** Not done at or after the deadline: timeout, without another fetch. *)
Lemma poll_loop_timeout (P : platform) (fuel : nat) (deadline : Q) (D : Z)
    (current : pyval) (w : world) :
  not_done current ->
  (deadline <= clock w)%Q ->
  poll_loop P (S fuel) deadline D current w
  = (Ok (Returned false), with_ui w [StatusError TimedOut]).
Proof.
  intros (d & Hd & Ht) Hle. rewrite poll_loop_eq.
  apply Qle_bool_iff in Hle.
  cbv [bind lift time_time]. rewrite Hd, Ht, Hle. reflexivity.
Qed.

(** Not done before the deadline: the progress is shown, then come the
    sleep, the re-fetch and the next round. *)
Lemma poll_loop_round (P : platform) (fuel : nat) (deadline : Q) (D : Z)
    (current next : pyval) (w : world) :
  not_done current ->
  (clock w < deadline)%Q ->
  (0 < inject_Z D)%Q ->
  operations_reply P (polls w) current = Ok next ->
  poll_loop P (S fuel) deadline D current w
  = poll_loop P fuel deadline D next
      (slept_and_fetched P current
         (with_ui w [ProgressBar (progress_at deadline D (clock w));
                     StatusText Processing])).
Proof.
  intros (d & Hd & Ht) Hlt HD Hnext. rewrite (poll_loop_eq P (S fuel)).
  assert (Qle_bool deadline (clock w) = false) as Hle.
  { destruct (Qle_bool deadline (clock w)) eqn:E; [|reflexivity].
    apply Qle_bool_iff in E. lra. }
  assert (Qeq_bool (inject_Z D) 0 = false) as Hnz.
  { destruct (Qeq_bool (inject_Z D) 0) eqn:E; [|reflexivity].
    apply Qeq_bool_iff in E. lra. }
  cbv [bind lift time_time divide show modify sleep_then_get].
  rewrite Hd, Ht, Hle, Hnz.
  cbn [clock fs polls remote_calls ui]. rewrite Hnext.
  unfold slept_and_fetched, with_ui, progress_at.
  cbn [clock fs polls remote_calls ui]. rewrite <- app_assoc. reflexivity.
Qed.

(** After the loop: failure with the message of the error, or success;
    progress 1.0 is reported in both cases. *)
Lemma after_loop_follows (P : platform) (deadline : Q) (D : Z) (current : pyval)
    (w : world) :
  is_done current ->
  exists (out : outcome) (w' : world),
    polling P deadline D current w out w'
    /\ after_loop P current w = (Ok (succeeded out), w').
Proof.
  intros Hdone. unfold after_loop, hasattr, getattr.
  destruct (attr_of current "error") as [error|] eqn:He.
  - destruct (truthy error) eqn:Ht.
    + exists (IngestFailed (error_message P error)). eexists. split.
      * apply polling_failed with (error := error); [exact Hdone| |exact Ht].
        unfold getattr. by rewrite He.
      * cbv [bind lift show modify ret]. rewrite Ht.
        unfold with_ui. cbn [clock fs polls remote_calls ui succeeded].
        rewrite <- app_assoc. reflexivity.
    + exists Success. eexists. split.
      * apply polling_succeeded; [exact Hdone|].
        intros error'. unfold getattr. rewrite He. by intros [= <-].
      * cbv [bind lift show modify ret advance]. rewrite Ht.
        cbn [clock fs polls remote_calls ui succeeded].
        rewrite <- app_assoc. reflexivity.
  - exists Success. eexists. split.
    + apply polling_succeeded; [exact Hdone|].
      intros error'. unfold getattr. rewrite He. discriminate.
    + cbv [bind lift show modify ret advance].
      cbn [clock fs polls remote_calls ui succeeded].
      rewrite <- app_assoc. reflexivity.
Qed.

Lemma inject_Z_succ (n : nat) :
  (inject_Z (Z.of_nat (S n)) == inject_Z (Z.of_nat n) + 1)%Q.
Proof. rewrite Nat2Z.inj_succ. unfold Z.succ. rewrite inject_Z_plus. reflexivity. Qed.

(** The loop and what follows it carry out the protocol, and end: the
    deadline bounds the number of rounds. *)
Lemma poll_loop_follows (P : platform) (deadline : Q) (D : Z) :
  (forall n, (0 <= lag P n)%Q) ->
  (forall n v, exists next,
      operations_reply P n v = Ok next /\ is_ok (getattr next "done") = true) ->
  forall (fuel : nat) (current : pyval) (w : world),
    is_ok (getattr current "done") = true ->
    (deadline - inject_Z D <= clock w)%Q ->
    (deadline - clock w <= 3 * inject_Z (Z.of_nat fuel))%Q ->
    exists (out : outcome) (w' : world),
      polling P deadline D current w out w'
      /\ bind (poll_loop P (S fuel) deadline D current) (after_exit P) w
         = (Ok (Some (succeeded out)), w').
Proof.
  intros Hlag Hreplies.
  induction fuel as [|fuel IH]; intros current w Hhas Hstart Hfuel;
    (destruct (getattr current "done") as [d|] eqn:Hd; [|discriminate]);
    (destruct (truthy d) eqn:Ht;
     [ assert (is_done current) as Hdone by (exists d; auto);
       destruct (after_loop_follows P deadline D current w Hdone)
         as (out & w' & Hpoll & Hafter);
       exists out, w'; split; [exact Hpoll|];
       unfold bind at 1; rewrite (poll_loop_done _ _ _ _ _ _ Hdone);
       cbn [after_exit]; unfold bind; rewrite Hafter; reflexivity
     | assert (not_done current) as Hnot by (exists d; auto) ]);
    (destruct (Qlt_le_dec (clock w) deadline) as [Hlt|Hle];
     [ | exists Timeout; eexists; split; [by apply polling_timeout|];
         unfold bind; rewrite (poll_loop_timeout _ _ _ _ _ _ Hnot Hle);
         reflexivity ]).
  - (* no round left although the deadline is ahead: excluded *)
    exfalso. change (inject_Z (Z.of_nat 0)) with 0%Q in Hfuel. lra.
  - destruct (Hreplies (polls w) current) as (next & Hnext & Hnext_done).
    assert (0 < inject_Z D)%Q as HD by lra.
    pose proof (Hlag (polls w)) as Hlag_now.
    rewrite inject_Z_succ in Hfuel.
    destruct (IH next
                (slept_and_fetched P current
                   (with_ui w [ProgressBar (progress_at deadline D (clock w));
                               StatusText Processing])) Hnext_done)
      as (out & w' & Hpoll & Hrun).
    + cbn [slept_and_fetched with_ui clock polls]. lra.
    + cbn [slept_and_fetched with_ui clock polls]. lra.
    + exists out, w'. split.
      * by apply polling_round with (next := next).
      * unfold bind at 1.
        rewrite (poll_loop_round _ _ _ _ _ _ _ Hnot Hlt HD Hnext).
        exact Hrun.
Qed.

(** A timeout is reported at or after the deadline only. *)
Lemma polling_timeout_late (P : platform) (deadline : Q) (D : Z) (current : pyval)
    (w w' : world) (out : outcome) :
  polling P deadline D current w out w' ->
  out = Timeout -> (deadline <= clock w')%Q.
Proof.
  induction 1 as [current w Hnot Hle| | |]; intros Hout;
    [exact Hle|auto|discriminate|discriminate].
Qed.

Lemma progress_at_elapsed (start : Q) (D : Z) (now : Q) :
  (progress_at (start + inject_Z D) D now
   == Qmin ((now - start) / inject_Z D) (99 # 100))%Q.
Proof.
  unfold progress_at.
  assert (now - (start + inject_Z D - inject_Z D) == now - start)%Q as -> by ring.
  reflexivity.
Qed.

End PollingFacts.

Section PollingClaims.
Import Env Polling Upload.

(** C1.  Given replies that carry a [done] flag and a clock that does
    not run backwards, [wait_for_operation] with timeout [D] carries out
    the polling protocol with the deadline [D] seconds after the call and
    returns: while the operation is not done, it fails with a timeout
    exactly when the time has reached the deadline, and before the
    deadline it reports the progress [min(elapsed / D, 0.99)], sleeps 3
    seconds and re-fetches the status; when the operation is done with an
    error it fails, showing the error's message; when it is done without
    error it succeeds, and progress 1.0 is reported.  The result is
    [True] exactly on success, and a timeout is never reported before the
    deadline. *)
Theorem wait_for_operation_follows_protocol (P : platform) (fuel : nat)
    (operation : pyval) (D : Z) (w : world) :
  (forall n, (0 <= lag P n)%Q) ->
  (forall n v, exists next,
      operations_reply P n v = Ok next /\ is_ok (getattr next "done") = true) ->
  is_ok (getattr operation "done") = true ->
  (D <= 3 * Z.of_nat fuel)%Z ->
  exists (out : outcome) (w' : world),
    polling P (clock w + inject_Z D) D operation (with_ui w [ProgressBar 0]) out w'
    /\ wait_for_operation P (S fuel) operation D w
       = (Ok (Some (succeeded out)), with_ui w' [ProgressEmpty; StatusEmpty])
    /\ (out = Timeout -> (clock w + inject_Z D <= clock w')%Q)
    /\ (forall now : Q,
          (progress_at (clock w + inject_Z D) D now
           == Qmin ((now - clock w) / inject_Z D) (99 # 100))%Q).
Proof.
  intros Hlag Hreplies Hop Hfuel.
  destruct (poll_loop_follows P (clock w + inject_Z D) D Hlag Hreplies fuel
              operation (with_ui w [ProgressBar 0]) Hop)
    as (out & w' & Hpoll & Hrun).
  - cbn [with_ui clock]. lra.
  - cbn [with_ui clock].
    rewrite Zle_Qle, inject_Z_mult in Hfuel.
    change (inject_Z 3) with 3%Q in Hfuel. lra.
  - exists out, w'. split; [exact Hpoll|]. split; [|split].
    + unfold wait_for_operation.
      unfold bind at 1. cbn [time_time]. unfold bind at 1.
      unfold show at 1, modify. fold (with_ui w [ProgressBar 0]).
      unfold try_finally.
      change (do exit <- poll_loop P (S fuel) (clock w + inject_Z D) D operation;
              after_exit P exit)
        with (bind (poll_loop P (S fuel) (clock w + inject_Z D) D operation)
                (after_exit P)).
      rewrite Hrun. cbv [bind show modify].
      unfold with_ui. cbn [clock fs polls remote_calls ui].
      rewrite <- app_assoc. reflexivity.
    + intros Hout. exact (polling_timeout_late _ _ _ _ _ _ _ Hpoll Hout).
    + intros now. apply progress_at_elapsed.
Qed.

Lemma wait_for_operation_follows_protocol_witness :
  exists (out : outcome) (w' : world),
    polling (sample_platform (Some 2%nat) PNone) (clock initial_world + inject_Z 300)
      300 (operation_obj false PNone) (with_ui initial_world [ProgressBar 0]) out w'
    /\ wait_for_operation (sample_platform (Some 2%nat) PNone) (S 100)
         (operation_obj false PNone) 300 initial_world
       = (Ok (Some (succeeded out)), with_ui w' [ProgressEmpty; StatusEmpty])
    /\ (out = Timeout -> (clock initial_world + inject_Z 300 <= clock w')%Q)
    /\ (forall now : Q,
          (progress_at (clock initial_world + inject_Z 300) 300 now
           == Qmin ((now - clock initial_world) / inject_Z 300) (99 # 100))%Q).
Proof.
  apply wait_for_operation_follows_protocol.
  - intros n. apply Qle_refl.
  - intros n v. eexists. split; reflexivity.
  - reflexivity.
  - lia.
Defined.

(** An operation reported not done twice and then done without error:
    success after two status fetches, with progress 1.0 reported. *)
Example polling_done_after_two_rounds :
  fst (wait_for_operation (sample_platform (Some 2%nat) PNone) 200
         (operation_obj false PNone) 300 initial_world)
  = Ok (Some true)
  /\ ui (snd (wait_for_operation (sample_platform (Some 2%nat) PNone) 200
                (operation_obj false PNone) 300 initial_world))
     = [ProgressBar 0;
        ProgressBar (0 # 300); StatusText Processing;
        ProgressBar (3 # 300); StatusText Processing;
        ProgressBar 1; StatusSuccess Complete; ProgressEmpty; StatusEmpty].
Proof. split; vm_compute; reflexivity. Qed.

(** A deadline of 5 seconds and an operation that never completes: no
    timeout at 0 and at 3 seconds, timeout at 6 seconds. *)
Example polling_timeout_after_five_seconds :
  fst (wait_for_operation (sample_platform None PNone) 200
         (operation_obj false PNone) 5 initial_world)
  = Ok (Some false)
  /\ ui (snd (wait_for_operation (sample_platform None PNone) 200
                (operation_obj false PNone) 5 initial_world))
     = [ProgressBar 0;
        ProgressBar (0 # 5); StatusText Processing;
        ProgressBar (3 # 5); StatusText Processing;
        StatusError TimedOut; ProgressEmpty; StatusEmpty]
  /\ clock (snd (wait_for_operation (sample_platform None PNone) 200
                   (operation_obj false PNone) 5 initial_world))
     = 6%Q.
Proof. split; [|split]; vm_compute; reflexivity. Qed.

(** An operation done with an error: failure, showing the message. *)
Example polling_done_with_error :
  fst (wait_for_operation
         (sample_platform (Some 1%nat) (PObj [("message", PStr "unsupported file")]))
         200 (operation_obj false PNone) 300 initial_world)
  = Ok (Some false)
  /\ ui (snd (wait_for_operation
                (sample_platform (Some 1%nat) (PObj [("message", PStr "unsupported file")]))
                200 (operation_obj false PNone) 300 initial_world))
     = [ProgressBar 0;
        ProgressBar (0 # 300); StatusText Processing;
        ProgressBar 1; StatusError (OperationFailed (PStr "unsupported file"));
        ProgressEmpty; StatusEmpty].
Proof. split; vm_compute; reflexivity. Qed.

End PollingClaims.

(** * Further properties of the code *)

(** ** Citation extractor: what is and what is not cited *)

Section CitationExtras.
Import Citations.

Lemma substring_prefix_length (n : nat) (s : string) :
  String.length (String.substring 0 n s) = Nat.min n (String.length s).
Proof.
  revert s. induction n as [|n IH]; intros [|c s]; simpl; try reflexivity.
  by rewrite IH.
Qed.

Lemma substring_prefix_is_prefix (n : nat) (s : string) :
  String.prefix (String.substring 0 n s) s = true.
Proof.
  revert s. induction n as [|n IH]; intros [|c s]; simpl; try reflexivity.
  destruct (Ascii.ascii_dec c c) as [_|Hne]; [apply IH|congruence].
Qed.

(** A chunk appends at most one citation, whatever its shape and
    whether or not it raises. *)
Lemma cite_chunk_at_most_one (chunk : pyval) (citations : list pyval) :
  exists added : list pyval,
    snd (cite_chunk chunk citations) = citations ++ added /\ length added <= 1.
Proof.
  unfold cite_chunk, bind, lift, ret, append, modify, slice_to.
  repeat (simpl;
    match goal with
    | |- context [if ?b then _ else _] => destruct b
    | |- context [match getattr ?v ?n with _ => _ end] => destruct (getattr v n)
    | |- context [match ?v with PNone => _ | _ => _ end] => destruct v
    end); simpl;
    first [ by (exists []; rewrite app_nil_r; auto)
          | by (eexists [_]; split; [reflexivity|simpl; lia]) ].
Qed.

Lemma for_each_at_most_one (chunks : list pyval) (citations : list pyval) :
  exists added : list pyval,
    snd (for_each chunks cite_chunk citations) = citations ++ added
    /\ length added <= length chunks.
Proof.
  revert citations.
  induction chunks as [|c chunks IH]; intros citations; simpl.
  - exists []. by rewrite app_nil_r.
  - unfold bind.
    destruct (cite_chunk_at_most_one c citations) as (a1 & H1 & Hl1).
    destruct (cite_chunk c citations) as [[[]|e] cs1]; simpl in H1; subst cs1.
    + destruct (IH (citations ++ a1)) as (a2 & H2 & Hl2).
      exists (a1 ++ a2). rewrite H2, <- app_assoc. split; [reflexivity|].
      rewrite length_app. lia.
    + exists a1. split; [reflexivity|]. lia.
Qed.

(** A chunk with no (or an empty) retrieved context is passed over. *)
Lemma cite_chunk_no_context (chunk : pyval) (citations : list pyval) :
  truthy (getattr_default chunk "retrieved_context" PNone) = false ->
  cite_chunk chunk citations = (Ok tt, citations).
Proof. intros Hrc. unfold cite_chunk. rewrite Hrc. reflexivity. Qed.

(** X1.  Chunks that carry no retrieved context (those of a web search,
    which carry a [web] source instead) are passed over: a response all
    of whose grounding chunks are of that kind yields no citation. *)
Theorem extract_citations_ignores_chunks_without_context (chunks : list pyval) :
  Forall (fun chunk => truthy (getattr_default chunk "retrieved_context" PNone) = false)
    chunks ->
  extract_citations (response_of_chunks chunks) = Ok [].
Proof.
  intros Hall. rewrite extract_citations_collected.
  destruct chunks as [|c chunks]; [reflexivity|].
  rewrite extract_body_chunks by discriminate.
  enough (forall cs, for_each (c :: chunks) cite_chunk cs = (Ok tt, cs)) as ->
    by reflexivity.
  induction Hall as [|x l Hx Hl IH]; intros cs; simpl; [reflexivity|].
  unfold bind. rewrite (cite_chunk_no_context x cs Hx). apply IH.
Qed.

Lemma extract_citations_ignores_chunks_without_context_witness :
  extract_citations
    (response_of_chunks
       [PObj [("web", PObj [("uri", PStr "https://example.org");
                            ("title", PStr "Example")])];
        PObj [("retrieved_context", PNone)]])
  = Ok [].
Proof.
  apply extract_citations_ignores_chunks_without_context.
  repeat constructor.
Defined.

(** X2.  Whatever the shape of the grounding chunks, well-formed or
    not, the extractor returns at most one citation per chunk. *)
Theorem extract_citations_at_most_one_per_chunk (chunks : list pyval) :
  exists citations : list pyval,
    extract_citations (response_of_chunks chunks) = Ok citations
    /\ length citations <= length chunks.
Proof.
  rewrite extract_citations_collected. eexists. split; [reflexivity|].
  destruct chunks as [|c chunks]; [simpl; lia|].
  rewrite extract_body_chunks by discriminate.
  destruct (for_each_at_most_one (c :: chunks) []) as (added & -> & Hlen).
  exact Hlen.
Qed.

(** X3.  Only the grounding metadata of the first candidate is read:
    two responses whose first candidates carry the same grounding
    metadata yield the same citations, whatever else the first
    candidates and the further candidates hold. *)
Theorem extract_citations_first_candidate_only (first first' : pyval)
    (others others' : list pyval) :
  getattr_default first "grounding_metadata" PNone
  = getattr_default first' "grounding_metadata" PNone ->
  extract_citations (PObj [("candidates", PList (first :: others))])
  = extract_citations (PObj [("candidates", PList (first' :: others'))]).
Proof.
  intros Hgm. rewrite !extract_citations_collected.
  unfold extract_body, bind, lift, ret; simpl. rewrite Hgm. reflexivity.
Qed.

Lemma extract_citations_first_candidate_only_witness :
  extract_citations
    (PObj [("candidates",
            PList [PObj [("index", PInt 0);
                         ("grounding_metadata",
                          PObj [("grounding_chunks",
                                 PList [enc_chunk (chunk_uri "A")])])];
                   PObj [("grounding_metadata",
                          PObj [("grounding_chunks",
                                 PList [enc_chunk (chunk_uri "B")])])]])])
  = extract_citations
      (PObj [("candidates",
              PList [PObj [("grounding_metadata",
                            PObj [("grounding_chunks",
                                   PList [enc_chunk (chunk_uri "A")])])]])]).
Proof.
  apply extract_citations_first_candidate_only. reflexivity.
Defined.

(** X4.  Only a text reference is cut: a chunk without URI and title
    is cited by the prefix of its text of 80 characters, or by the whole
    text if that is shorter, while a URI or a title is cited in full
    whatever its length. *)
Theorem extract_citations_cuts_text_only (rc : retrieved_context) :
  (forall x : string,
      present (uri rc) = None -> present (title rc) = None ->
      present (text rc) = Some x ->
      exists r : string,
        extract_citations (enc_response [Some rc]) = Ok [PStr r]
        /\ String.length r = Nat.min 80 (String.length x)
        /\ String.prefix r x = true)
  /\ (forall u : string,
        present (uri rc) = Some u ->
        extract_citations (enc_response [Some rc]) = Ok [PStr u])
  /\ (forall t : string,
        present (uri rc) = None -> present (title rc) = Some t ->
        extract_citations (enc_response [Some rc]) = Ok [PStr t]).
Proof.
  split; [|split].
  - intros x Hu Ht Hx. exists (String.substring 0 80 x).
    split; [|split].
    + rewrite extract_citations_wellformed. unfold references. simpl.
      by rewrite Hu, Ht, Hx.
    + apply substring_prefix_length.
    + apply substring_prefix_is_prefix.
  - intros u Hu. rewrite extract_citations_wellformed. unfold references. simpl.
    by rewrite Hu.
  - intros t Hu Ht. rewrite extract_citations_wellformed. unfold references. simpl.
    by rewrite Hu, Ht.
Qed.

Lemma extract_citations_cuts_text_only_witness :
  extract_citations
    (enc_response [Some (RetrievedContext (Some (repeat_char "u" 100)) None None)])
  = Ok [PStr (repeat_char "u" 100)].
Proof.
  apply (proj1 (proj2 (extract_citations_cuts_text_only
                 (RetrievedContext (Some (repeat_char "u" 100)) None None)))).
  reflexivity.
Defined.

End CitationExtras.

(** ** Polling loop: how long and how often *)

Section PollingExtras.
Import Env Polling Upload.

(** One round of the loop either leaves clock and fetch count as they
    are (done, timeout, or a failure before the sleep), or it started
    before the deadline, slept, fetched once, and then raised or went on
    with the reply. *)
Lemma poll_loop_cases (P : platform) (fuel : nat) (deadline : Q) (D : Z)
    (current : pyval) (w : world) :
  (clock (snd (poll_loop P (S fuel) deadline D current w)) = clock w
   /\ polls (snd (poll_loop P (S fuel) deadline D current w)) = polls w)
  \/ ((clock w < deadline)%Q
      /\ exists w2 : world,
           clock w2 = (clock w + 3 + lag P (polls w))%Q
           /\ polls w2 = S (polls w)
           /\ ((exists e, poll_loop P (S fuel) deadline D current w = (Raise e, w2))
               \/ (exists next,
                     poll_loop P (S fuel) deadline D current w
                     = poll_loop P fuel deadline D next w2))).
Proof.
  rewrite (poll_loop_eq P (S fuel)).
  cbv [bind lift time_time show modify ret divide sleep_then_get].
  destruct (getattr current "done") as [d|e]; [|left; split; reflexivity].
  destruct (truthy d); [left; split; reflexivity|].
  destruct (Qle_bool deadline (clock w)) eqn:Hle; [left; split; reflexivity|].
  destruct (Qeq_bool (inject_Z D) 0); [left; split; reflexivity|].
  right. split.
  { destruct (Qlt_le_dec (clock w) deadline) as [Hlt|Hge]; [exact Hlt|].
    apply Qle_bool_iff in Hge. congruence. }
  cbn [clock fs polls remote_calls ui].
  destruct (operations_reply P (polls w) current) as [next|e];
    refine (ex_intro _ (World _ _ _ _ _) _); cbn [clock polls];
    (split; [reflexivity|split; [reflexivity|]]);
    [right; exists next; reflexivity | left; exists e; reflexivity].
Qed.

Lemma poll_loop_no_fuel (P : platform) (deadline : Q) (D : Z) (current : pyval)
    (w : world) :
  snd (poll_loop P 0 deadline D current w) = w.
Proof.
  simpl. cbv [bind lift ret].
  destruct (getattr current "done") as [d|e]; [|reflexivity].
  destruct (truthy d); reflexivity.
Qed.

(** What follows the loop fetches nothing and takes at most the half
    second of the success message. *)
Lemma after_exit_clock (P : platform) (exit : loop_exit) (w : world) :
  polls (snd (after_exit P exit w)) = polls w
  /\ (clock (snd (after_exit P exit w)) <= clock w + (1 # 2))%Q.
Proof.
  destruct exit as [b|current|]; simpl;
    [split; [reflexivity|lra]| |split; [reflexivity|lra]].
  unfold after_loop.
  cbv [bind lift show modify ret advance].
  destruct (hasattr current "error"); simpl.
  - destruct (getattr current "error") as [error|e]; simpl;
      [|split; [reflexivity|lra]].
    destruct (truthy error); simpl; split; try reflexivity; lra.
  - split; [reflexivity|lra].
Qed.

Lemma poll_loop_time (P : platform) (L : Q) (deadline : Q) (D : Z) :
  (forall n, (lag P n <= L)%Q) ->
  forall (fuel : nat) (current : pyval) (w : world),
    (clock (snd (poll_loop P fuel deadline D current w))
     <= Qmax (clock w) (deadline + 3 + L))%Q.
Proof.
  intros Hlag. induction fuel as [|fuel IH]; intros current w.
  - rewrite poll_loop_no_fuel. apply Q.le_max_l.
  - destruct (poll_loop_cases P fuel deadline D current w)
      as [[-> _]|(Hlt & w2 & Hc2 & _ & [(e & ->)|(next & ->)])].
    + apply Q.le_max_l.
    + simpl. rewrite Hc2. pose proof (Hlag (polls w)).
      eapply Qle_trans; [|apply Q.le_max_r]. lra.
    + eapply Qle_trans; [apply IH|].
      pose proof (Hlag (polls w)).
      apply Q.max_lub; [|apply Q.le_max_r].
      rewrite Hc2. eapply Qle_trans; [|apply Q.le_max_r]. lra.
Qed.

Lemma poll_loop_fetches (P : platform) (deadline : Q) (D : Z) :
  (forall n, (0 <= lag P n)%Q) ->
  forall (fuel : nat) (current : pyval) (w : world),
    (polls w <= polls (snd (poll_loop P fuel deadline D current w)))%nat
    /\ ((polls w < polls (snd (poll_loop P fuel deadline D current w)))%nat ->
        (3 * inject_Z (Z.of_nat (polls (snd (poll_loop P fuel deadline D current w))))
         <= 3 * inject_Z (Z.of_nat (polls w)) + (deadline - clock w) + 3)%Q).
Proof.
  intros Hlag. induction fuel as [|fuel IH]; intros current w.
  - rewrite poll_loop_no_fuel. split; [lia|lia].
  - destruct (poll_loop_cases P fuel deadline D current w)
      as [[_ ->]|(Hlt & w2 & Hc2 & Hp2 & [(e & ->)|(next & ->)])].
    + split; lia.
    + simpl. rewrite Hp2. split; [lia|]. intros _.
      rewrite inject_Z_succ. lra.
    + destruct (IH next w2) as [Hle Hbound]. rewrite Hp2 in Hle, Hbound.
      split; [lia|]. intros _.
      pose proof (Hlag (polls w)) as Hlag_now.
      destruct (Nat.eq_dec (S (polls w))
                  (polls (snd (poll_loop P fuel deadline D next w2)))) as [<-|Hne].
      * rewrite inject_Z_succ. lra.
      * assert (S (polls w)
                < polls (snd (poll_loop P fuel deadline D next w2)))%nat as Hlt'
          by lia.
        specialize (Hbound Hlt'). rewrite Hc2, inject_Z_succ in Hbound. lra.
Qed.

(** The function as the loop and what follows it, between the first
    progress event and the two events of the [finally] clause. *)
Lemma wait_for_operation_eq (P : platform) (fuel : nat) (operation : pyval)
    (D : Z) (w : world) :
  wait_for_operation P fuel operation D w
  = (fst (bind (poll_loop P fuel (clock w + inject_Z D) D operation) (after_exit P)
            (with_ui w [ProgressBar 0])),
     with_ui
       (with_ui
          (snd (bind (poll_loop P fuel (clock w + inject_Z D) D operation)
                  (after_exit P) (with_ui w [ProgressBar 0])))
          [ProgressEmpty])
       [StatusEmpty]).
Proof.
  unfold wait_for_operation, try_finally, with_ui.
  cbv [bind time_time show modify].
  destruct (poll_loop P fuel (clock w + inject_Z D) D operation _)
    as [[exit|e] w1]; [|reflexivity].
  destruct (after_exit P exit w1) as [r w2]. reflexivity.
Qed.

(** The events of the [finally] clause change neither clock nor count. *)
Lemma wait_for_operation_run (P : platform) (fuel : nat) (operation : pyval)
    (D : Z) (w : world) :
  exists w1 w2 : world,
    w1 = snd (poll_loop P fuel (clock w + inject_Z D) D operation
                (with_ui w [ProgressBar 0]))
    /\ (polls w2 = polls w1 /\ (clock w2 <= clock w1 + (1 # 2))%Q)
    /\ polls (snd (wait_for_operation P fuel operation D w)) = polls w2
    /\ clock (snd (wait_for_operation P fuel operation D w)) = clock w2.
Proof.
  rewrite wait_for_operation_eq. cbn [snd with_ui clock polls].
  unfold bind.
  destruct (poll_loop P fuel (clock w + inject_Z D) D operation
              (with_ui w [ProgressBar 0])) as [[exit|e] w1].
  - pose proof (after_exit_clock P exit w1) as Hafter.
    destruct (after_exit P exit w1) as [r w2].
    exists w1, w2. split; [reflexivity|]. split; [exact Hafter|].
    split; reflexivity.
  - exists w1, w1. split; [reflexivity|]. split; [split; [reflexivity|lra]|].
    split; reflexivity.
Qed.

(** X5.  When no status fetch overruns its sleep by more than [L]
    seconds, [wait_for_operation] gives control back at most
    [max(0, D + 3 + L)] seconds and a half after it was called, whatever
    the remote service replies. *)
Theorem wait_for_operation_bounded_wait (P : platform) (L : Q) (fuel : nat)
    (operation : pyval) (D : Z) (w : world) :
  (forall n, (lag P n <= L)%Q) ->
  (clock (snd (wait_for_operation P fuel operation D w))
   <= clock w + Qmax 0 (inject_Z D + 3 + L) + (1 # 2))%Q.
Proof.
  intros Hlag.
  destruct (wait_for_operation_run P fuel operation D w)
    as (w1 & w2 & Hw1 & [_ Hc2] & _ & ->).
  pose proof (poll_loop_time P L (clock w + inject_Z D) D Hlag fuel operation
                (with_ui w [ProgressBar 0])) as Hloop.
  rewrite <- Hw1 in Hloop. cbn [with_ui clock] in Hloop.
  assert (Qmax (clock w) (clock w + inject_Z D + 3 + L)
          <= clock w + Qmax 0 (inject_Z D + 3 + L))%Q as Hmax.
  { apply Q.max_lub.
    - pose proof (Q.le_max_l 0 (inject_Z D + 3 + L)). lra.
    - pose proof (Q.le_max_r 0 (inject_Z D + 3 + L)). lra. }
  lra.
Qed.

Lemma wait_for_operation_bounded_wait_witness :
  (clock (snd (wait_for_operation (sample_platform None PNone) 200
                 (operation_obj false PNone) 300 initial_world))
   <= clock initial_world + Qmax 0 (inject_Z 300 + 3 + 0) + (1 # 2))%Q.
Proof.
  apply wait_for_operation_bounded_wait. intros n. apply Qle_refl.
Defined.

(** X6.  When the clock does not run backwards, [wait_for_operation]
    fetches the status of the operation at most [D / 3 + 1] times (and
    not at all when [D] is negative): three times the number of fetches
    is at most [D + 3]. *)
Theorem wait_for_operation_fetch_bound (P : platform) (fuel : nat)
    (operation : pyval) (D : Z) (w : world) :
  (forall n, (0 <= lag P n)%Q) ->
  (polls w <= polls (snd (wait_for_operation P fuel operation D w)))%nat
  /\ (3 * Z.of_nat (polls (snd (wait_for_operation P fuel operation D w)) - polls w)
      <= Z.max 0 (D + 3))%Z.
Proof.
  intros Hlag.
  destruct (wait_for_operation_run P fuel operation D w)
    as (w1 & w2 & Hw1 & [Hp2 _] & -> & _).
  rewrite Hp2.
  destruct (poll_loop_fetches P (clock w + inject_Z D) D Hlag fuel operation
              (with_ui w [ProgressBar 0])) as [Hle Hbound].
  rewrite <- Hw1 in Hle, Hbound. cbn [with_ui clock polls] in Hle, Hbound.
  split; [exact Hle|].
  destruct (Nat.eq_dec (polls w) (polls w1)) as [<-|Hne].
  - rewrite Nat.sub_diag. simpl. lia.
  - assert (polls w < polls w1)%nat as Hlt by lia.
    specialize (Hbound Hlt).
    assert (inject_Z (3 * Z.of_nat (polls w1)) <= inject_Z (3 * Z.of_nat (polls w) + D + 3))%Q
      as Hq.
    { rewrite !inject_Z_plus, !inject_Z_mult.
      change (inject_Z 3) with 3%Q. lra. }
    rewrite <- Zle_Qle in Hq. lia.
Qed.

Lemma wait_for_operation_fetch_bound_witness :
  (polls initial_world
   <= polls (snd (wait_for_operation (sample_platform None PNone) 200
                    (operation_obj false PNone) 5 initial_world)))%nat
  /\ (3 * Z.of_nat
            (polls (snd (wait_for_operation (sample_platform None PNone) 200
                           (operation_obj false PNone) 5 initial_world))
             - polls initial_world)
      <= Z.max 0 (5 + 3))%Z.
Proof.
  apply wait_for_operation_fetch_bound. intros n. apply Qle_refl.
Defined.

End PollingExtras.

(** ** Document upload: no exception, no second attempt *)

Section UploadExtras.
Import Env Polling Upload.

(** The [finally] clause never raises and makes no remote call. *)
Lemma upload_cleanup_total (temp_path : option string) (w : world) :
  exists w' : world,
    upload_cleanup (temp_path, w) = (Ok tt, (temp_path, w'))
    /\ remote_calls w' = remote_calls w.
Proof.
  unfold upload_cleanup, bind, get_temp_path. cbn [fst snd].
  destruct (nonempty temp_path) as [path|]; [|exists w; split; reflexivity].
  unfold in_world, path_exists, os_remove, ret; simpl.
  destruct (bool_decide (path ∈ fs w)) eqn:Hin; simpl; rewrite ?Hin;
    eexists; split; reflexivity.
Qed.

(** X7.  [upload_document] never raises, whatever fails on the way (the
    creation of the temporary file, the write, the upload call, a status
    fetch), and it calls the upload of the remote service at most once:
    nothing is retried. *)
Theorem upload_document_never_raises (P : platform) (fuel : nat)
    (store_name : string) (file : uploaded_file) (display_name : option string)
    (metadata : option (list (string * pyval))) (chunk_size chunk_overlap : Z)
    (w : world) :
  (exists r : option bool,
      fst (upload_document P fuel store_name file display_name metadata
             chunk_size chunk_overlap w) = Ok r)
  /\ (exists made : list (string * string * upload_config),
        uploads (remote_calls
          (snd (upload_document P fuel store_name file display_name metadata
                  chunk_size chunk_overlap w)))
        = uploads (remote_calls w) ++ made
        /\ length made <= 1).
Proof.
  unfold upload_document, try_finally, try_except, upload_body.
  cbv [bind in_world open_temporary_file set_temp_path modify lift
       upload_to_file_search_store call ret show fst snd].
  destruct (named_temporary_file P (splitext_ext P (file_name file)) (fs w))
    as [path|e].
  2:{ match goal with
      | |- context [upload_cleanup (?tp, ?w0)] =>
          destruct (upload_cleanup_total tp w0) as (w3 & -> & Hc)
      end.
      cbn [fst snd]. rewrite Hc. cbn [remote_calls].
      split; [eauto|]. exists []. rewrite app_nil_r. split; [reflexivity|simpl; lia]. }
  destruct (tmp_write P path (file_value file)) as [[]|e].
  2:{ match goal with
      | |- context [upload_cleanup (?tp, ?w0)] =>
          destruct (upload_cleanup_total tp w0) as (w3 & -> & Hc)
      end.
      cbn [fst snd]. rewrite Hc. cbn [remote_calls].
      split; [eauto|]. exists []. rewrite app_nil_r. split; [reflexivity|simpl; lia]. }
  set (config := build_config P display_name metadata chunk_size chunk_overlap).
  destruct (upload_reply P store_name path config) as [upload_op|e].
  2:{ match goal with
      | |- context [upload_cleanup (?tp, ?w0)] =>
          destruct (upload_cleanup_total tp w0) as (w3 & -> & Hc)
      end.
      cbn [fst snd]. rewrite Hc. cbn [remote_calls].
      split; [eauto|]. exists [(store_name, path, config)].
      split; [apply uploads_snoc_upload|simpl; lia]. }
  match goal with
  | |- context [wait_for_operation P fuel upload_op 300 ?w0] =>
      pose proof (wait_for_operation_quiet P fuel upload_op 300 w0) as [_ Hup];
      destruct (wait_for_operation P fuel upload_op 300 w0) as [[b|e] w2]
  end; cbn [snd remote_calls] in Hup;
    match goal with
    | |- context [upload_cleanup (?tp, ?w0)] =>
        destruct (upload_cleanup_total tp w0) as (w3 & -> & Hc)
    end;
    cbn [fst snd]; rewrite Hc; cbn [remote_calls]; rewrite Hup;
    (split; [eauto|]); exists [(store_name, path, config)];
    (split; [apply uploads_snoc_upload|simpl; lia]).
Qed.

End UploadExtras.

(** ** Store registry: which store is resolved, and when one is created *)

Section StoreExtras.
Import Env Stores Overview.

(** The store the lookup loop returns is the first one with the
    display name asked for. *)
Lemma find_store_first (display_name : string) (yielded : list remote_store)
    (found : string) :
  find_store display_name yielded = Some found ->
  exists (before : list remote_store) (store : remote_store)
         (after : list remote_store),
    yielded = before ++ store :: after
    /\ Forall (fun other => Stores.display_name other <> display_name) before
    /\ Stores.display_name store = display_name
    /\ name store = found.
Proof.
  induction yielded as [|store yielded IH]; simpl; [discriminate|].
  destruct (String.eqb_spec (Stores.display_name store) display_name) as [Heq|Hne].
  - intros [= <-]. exists [], store, yielded. repeat split; auto.
  - intros Hfound. destruct (IH Hfound) as (before & st & after & -> & Hb & Hd & Hn).
    exists (store :: before), st, after. repeat split; auto.
Qed.

(** X8.  With no configured and no cached identifier, when the listing
    yields a store with the display name asked for, the first such store
    is returned and cached, one listing call is made and no store is
    created, also when the listing fails further on. *)
Theorem get_or_create_first_match (A : store_api) (configured : option string)
    (display_name : string) (s : state) (yielded : list remote_store)
    (failure : option exn) (found : string) :
  Upload.nonempty configured = None ->
  session s !! "store_name" = None ->
  list_reply A (stores s) = (yielded, failure) ->
  find_store display_name yielded = Some found ->
  get_or_create_file_search_store A configured display_name s
  = (Ok (Some found),
     State (<["store_name" := found]> (session s)) (stores s)
       (calls s ++ [ListStores]) (shown s))
  /\ exists (before : list remote_store) (store : remote_store)
            (after : list remote_store),
       yielded = before ++ store :: after
       /\ Forall (fun other => Stores.display_name other <> display_name) before
       /\ Stores.display_name store = display_name
       /\ name store = found.
Proof.
  intros Hconf Hsess Hlist Hfound.
  split; [|by apply find_store_first].
  unfold get_or_create_file_search_store. rewrite Hconf.
  unfold bind at 1. unfold get at 1. rewrite Hsess.
  cbv [bind try_except call set_store_name modify ret]. simpl.
  rewrite Hlist, Hfound. reflexivity.
Qed.

Lemma get_or_create_first_match_witness :
  get_or_create_file_search_store sample_api None "docs"
    (fresh_state
       [sample_store;
        RemoteStore "fileSearchStores/docs-2" "docs" None None None None "" ""])
  = (Ok (Some "fileSearchStores/docs"),
     State (<["store_name" := "fileSearchStores/docs"]> ∅)
       [sample_store;
        RemoteStore "fileSearchStores/docs-2" "docs" None None None None "" ""]
       [ListStores] []).
Proof.
  refine (proj1 (get_or_create_first_match sample_api None "docs"
                   (fresh_state
                      [sample_store;
                       RemoteStore "fileSearchStores/docs-2" "docs"
                         None None None None "" ""])
                   [sample_store;
                    RemoteStore "fileSearchStores/docs-2" "docs"
                      None None None None "" ""]
                   None "fileSearchStores/docs" _ _ _ _));
    reflexivity.
Defined.

(** X9.  When the listing fails before a store with the display name
    was seen, the failure is only reported as a warning and a new store
    is created and cached: if the remote service already held a store
    with that display name, it then holds two. *)
Theorem get_or_create_listing_failure_duplicates (A : store_api)
    (configured : option string) (display_name : string) (s : state)
    (yielded : list remote_store) (e : exn) (existing created : remote_store) :
  Upload.nonempty configured = None ->
  session s !! "store_name" = None ->
  list_reply A (stores s) = (yielded, Some e) ->
  find_store display_name yielded = None ->
  existing ∈ stores s ->
  Stores.display_name existing = display_name ->
  create_reply A display_name (stores s) = Ok created ->
  Stores.display_name created = display_name ->
  exists s' : state,
    get_or_create_file_search_store A configured display_name s
    = (Ok (Some (name created)), s')
    /\ stores s' = stores s ++ [created]
    /\ calls s' = calls s ++ [ListStores; CreateStore display_name]
    /\ shown s' = shown s ++ [CouldNotListStores e]
    /\ session s' !! "store_name" = Some (name created)
    /\ 2 <= length (filter (fun store => Stores.display_name store = display_name)
                      (stores s')).
Proof.
  intros Hconf Hsess Hlist Hfind Hin Hname Hcreate Hcreated.
  unfold get_or_create_file_search_store. rewrite Hconf.
  unfold bind at 1. unfold get at 1. rewrite Hsess.
  cbv [bind try_except call set_store_name create modify raise ret show]. simpl.
  rewrite Hlist, Hfind. simpl. rewrite Hcreate. simpl.
  eexists. split; [reflexivity|]. simpl.
  split; [reflexivity|]. split; [by rewrite <- app_assoc|].
  split; [reflexivity|]. split; [apply lookup_insert_eq|].
  rewrite filter_app, length_app, filter_cons, decide_True by exact Hcreated.
  simpl.
  assert (existing ∈ filter (fun store => Stores.display_name store = display_name)
                      (stores s)) as Hex
    by (apply list_elem_of_filter; auto).
  destruct (filter _ (stores s)) as [|x l]; [inversion Hex|simpl; lia].
Qed.

(** A remote service whose listing always fails. *)
Lemma get_or_create_listing_failure_duplicates_witness :
  exists s' : state,
    get_or_create_file_search_store
      (StoreApi (fun _ => ([], Some (RemoteError "unavailable")))
         (create_reply sample_api) (get_reply sample_api))
      None "docs" (fresh_state [sample_store])
    = (Ok (Some "fileSearchStores/docs"), s')
    /\ stores s' = stores (fresh_state [sample_store])
                   ++ [RemoteStore "fileSearchStores/docs" "docs" None None None None
                         "2025-01-01T00:00:00Z" "2025-01-01T00:00:00Z"]
    /\ calls s' = calls (fresh_state [sample_store]) ++ [ListStores; CreateStore "docs"]
    /\ shown s' = shown (fresh_state [sample_store])
                  ++ [CouldNotListStores (RemoteError "unavailable")]
    /\ session s' !! "store_name" = Some "fileSearchStores/docs"
    /\ 2 <= length (filter (fun store => Stores.display_name store = "docs")
                      (stores s')).
Proof.
  apply (get_or_create_listing_failure_duplicates _ None "docs"
           (fresh_state [sample_store]) [] (RemoteError "unavailable")
           sample_store
           (RemoteStore "fileSearchStores/docs" "docs" None None None None
              "2025-01-01T00:00:00Z" "2025-01-01T00:00:00Z"));
    try reflexivity.
  simpl. apply list_elem_of_here.
Defined.

(** X10.  When no store is found and the creation fails, the function
    does not return: the error is shown, the script is halted, and
    nothing is cached, so that the next run looks the store up again. *)
Theorem get_or_create_creation_failure (A : store_api) (configured : option string)
    (display_name : string) (s : state) (yielded : list remote_store) (e : exn) :
  Upload.nonempty configured = None ->
  session s !! "store_name" = None ->
  list_reply A (stores s) = (yielded, None) ->
  find_store display_name yielded = None ->
  create_reply A display_name (stores s) = Raise e ->
  get_or_create_file_search_store A configured display_name s
  = (Ok None,
     State (session s) (stores s)
       (calls s ++ [ListStores; CreateStore display_name])
       (shown s ++ [FailedToCreateStore e])).
Proof.
  intros Hconf Hsess Hlist Hfind Hcreate.
  unfold get_or_create_file_search_store. rewrite Hconf.
  unfold bind at 1. unfold get at 1. rewrite Hsess.
  cbv [bind try_except call set_store_name create modify raise ret show]. simpl.
  rewrite Hlist, Hfind. simpl. rewrite Hcreate. simpl.
  by rewrite <- app_assoc.
Qed.

Lemma get_or_create_creation_failure_witness :
  get_or_create_file_search_store
    (StoreApi (list_reply sample_api)
       (fun _ _ => Raise (RemoteError "quota exceeded")) (get_reply sample_api))
    None "docs" (fresh_state [])
  = (Ok None,
     State (session (fresh_state [])) (stores (fresh_state []))
       (calls (fresh_state []) ++ [ListStores; CreateStore "docs"])
       (shown (fresh_state [])
        ++ [FailedToCreateStore (RemoteError "quota exceeded")])).
Proof.
  apply (get_or_create_creation_failure _ None "docs" (fresh_state []) []);
    reflexivity.
Defined.

(** X11.  [list_all_stores] never raises and is all or nothing: it
    returns one record per store the listing yielded, in the order of
    the listing, or, when the listing fails at any point, no record at
    all; it makes the one listing call only. *)
Theorem list_all_stores_all_or_nothing (A : store_api) (s : state) :
  exists (listed : list store_stats) (s' : state),
    list_all_stores A s = (Ok listed, s')
    /\ stores s' = stores s
    /\ calls s' = calls s ++ [ListStores]
    /\ match snd (list_reply A (stores s)) with
       | Some e => listed = [] /\ shown s' = shown s ++ [FailedToListStores e]
       | None =>
           map stats_name listed = map name (fst (list_reply A (stores s)))
           /\ shown s' = shown s
       end.
Proof.
  unfold list_all_stores, try_except, bind, call, modify, get, raise, ret, show.
  simpl.
  destruct (list_reply A (stores s)) as [yielded [e|]]; simpl.
  - eexists _, _. split; [reflexivity|]. simpl. auto.
  - eexists _, _. split; [reflexivity|]. simpl. repeat split.
    rewrite <- list_fmap_compose. reflexivity.
Qed.

Lemma sum_of_listed_totals (yielded : list remote_store) :
  sum_of total_documents (map listed_of yielded)
  = (sum_of active_documents (map listed_of yielded)
     + sum_of pending_documents (map listed_of yielded)
     + sum_of failed_documents (map listed_of yielded))%Z.
Proof.
  induction yielded as [|store yielded IH]; simpl; [reflexivity|].
  rewrite IH. lia.
Qed.

(** X12.  The "Total Documents" metric of the store overview, computed
    from the records [list_all_stores] returned, is the sum over all
    stores of the active, pending and failed counts, and the "Total
    Stores" metric is the number of records. *)
Theorem summary_metrics_totals (A : store_api) (s s' : state)
    (listed : list store_stats) (n : nat) (total_docs total_size : Z) :
  list_all_stores A s = (Ok listed, s') ->
  summary_metrics listed = Some (n, total_docs, total_size) ->
  n = length listed
  /\ total_docs
     = (sum_of active_documents listed + sum_of pending_documents listed
        + sum_of failed_documents listed)%Z.
Proof.
  unfold list_all_stores, try_except, bind, call, modify, get, raise, ret, show.
  simpl.
  destruct (list_reply A (stores s)) as [yielded [e|]]; simpl.
  - intros [= <- _]. discriminate.
  - intros [= <- _]. unfold summary_metrics.
    destruct (map listed_of yielded) eqn:Hmap; [discriminate|].
    rewrite <- Hmap. intros [= <- <- _].
    split; [reflexivity|apply sum_of_listed_totals].
Qed.

Lemma summary_metrics_totals_witness :
  1 = length [listed_of sample_store]
  /\ 4%Z
     = (sum_of active_documents [listed_of sample_store]
        + sum_of pending_documents [listed_of sample_store]
        + sum_of failed_documents [listed_of sample_store])%Z.
Proof.
  apply (summary_metrics_totals sample_api (fresh_state [sample_store])
           (State ∅ [sample_store] [ListStores] []) [listed_of sample_store]
           1 4%Z 0%Z); reflexivity.
Defined.

End StoreExtras.

(** ** Sorting of the inventory: every key *)

Section SortExtras.
Import Inventory SortKeys.

Section StableSort.
Context {A : Type} (before : A -> A -> bool).
Hypothesis before_asym : forall a b, before a b = true -> before b a = false.

(** A list that is in order is left as it is. *)
Lemma stable_sort_sorted (l : list A) :
  Sorted (in_order before) l -> stable_sort before l = l.
Proof.
  induction 1 as [|x l Hl IH Hhd]; [reflexivity|].
  unfold stable_sort in *. simpl. rewrite IH.
  destruct Hhd as [|y l' Hxy]; [reflexivity|].
  simpl. unfold in_order in Hxy. by rewrite Hxy.
Qed.

Lemma stable_sort_idempotent (l : list A) :
  stable_sort before (stable_sort before l) = stable_sort before l.
Proof. apply stable_sort_sorted. by apply stable_sort_Sorted. Qed.

(** Elements of a class [P] whose members never sort strictly before
    one another keep their order. *)
Lemma insert_sorted_filter (P : A -> Prop) `{!forall x, Decision (P x)}
    (x : A) (l : list A) :
  (forall a b, P a -> P b -> before a b = false) ->
  filter P (insert_sorted before x l) = filter P (x :: l).
Proof.
  intros Hclass. induction l as [|y l IH]; simpl; [reflexivity|].
  destruct (before y x) eqn:Hyx; [|reflexivity].
  rewrite (filter_cons _ y), IH, !(filter_cons _ x), !(filter_cons _ y).
  destruct (decide (P y)) as [Hy|Hy]; destruct (decide (P x)) as [Hx|Hx];
    try reflexivity.
  rewrite (Hclass y x Hy Hx) in Hyx. discriminate.
Qed.

Lemma stable_sort_filter (P : A -> Prop) `{!forall x, Decision (P x)} (l : list A) :
  (forall a b, P a -> P b -> before a b = false) ->
  filter P (stable_sort before l) = filter P l.
Proof.
  intros Hclass. induction l as [|x l IH]; [reflexivity|].
  unfold stable_sort in *. simpl.
  rewrite insert_sorted_filter by exact Hclass.
  rewrite !(filter_cons _ x), IH. reflexivity.
Qed.

End StableSort.

Lemma string_ltb_irrefl (a : string) : String.ltb a a = false.
Proof.
  destruct (String.ltb a a) eqn:E; [|reflexivity].
  pose proof (string_ltb_asym a a E). congruence.
Qed.

Lemma z_ltb_asym (a b : Z) : (a <? b)%Z = true -> (b <? a)%Z = false.
Proof. intros H. apply Z.ltb_lt in H. apply Z.ltb_ge. lia. Qed.

Lemma apply_sorting_key_order (sort_by : string) (docs : list document) :
  apply_sorting sort_by docs
  = match key_order sort_by with
    | Some before => stable_sort before docs
    | None => docs
    end.
Proof.
  unfold apply_sorting, key_order, sort_by_key.
  repeat (destruct (String.eqb sort_by _); [reflexivity|]). reflexivity.
Qed.

Lemma key_order_asym (sort_by : string) (before : document -> document -> bool) :
  key_order sort_by = Some before ->
  forall a b, before a b = true -> before b a = false.
Proof.
  unfold key_order.
  repeat (destruct (String.eqb sort_by _);
          [intros [= <-] a b; first [apply string_ltb_asym | apply z_ltb_asym]|]).
  discriminate.
Qed.

Lemma apply_sorting_perm (sort_by : string) (docs : list document) :
  apply_sorting sort_by docs ≡ₚ docs.
Proof.
  rewrite apply_sorting_key_order.
  destruct (key_order sort_by); [apply stable_sort_perm|reflexivity].
Qed.

Lemma apply_sorting_again (sort_by : string) (docs : list document) :
  apply_sorting sort_by (apply_sorting sort_by docs) = apply_sorting sort_by docs.
Proof.
  rewrite !apply_sorting_key_order.
  destruct (key_order sort_by) as [before|] eqn:Hkey; [|reflexivity].
  apply stable_sort_idempotent. by apply (key_order_asym sort_by).
Qed.

(** X13.  Whatever the sort key, sorting neither drops nor duplicates a
    document, sorting a second time changes nothing, and a selection that
    is none of the four keys leaves the list as it is. *)
Theorem apply_sorting_rearranges (sort_by : string) (docs : list document) :
  apply_sorting sort_by docs ≡ₚ docs
  /\ apply_sorting sort_by (apply_sorting sort_by docs) = apply_sorting sort_by docs
  /\ (key_order sort_by = None -> apply_sorting sort_by docs = docs).
Proof.
  split; [apply apply_sorting_perm|]. split; [apply apply_sorting_again|].
  intros Hkey. by rewrite apply_sorting_key_order, Hkey.
Qed.

Lemma apply_sorting_rearranges_witness :
  apply_sorting "Relevance" (map named ["b"; "a"]) = map named ["b"; "a"].
Proof.
  apply (proj2 (proj2 (apply_sorting_rearranges "Relevance" (map named ["b"; "a"])))).
  reflexivity.
Defined.

(** X14.  Sorting by the Size key puts the documents in order of
    non-increasing size, and sorting by either upload-time key puts
    them in order of their creation times, newest or oldest first. *)
Theorem apply_sorting_size_and_time (docs : list document) :
  Sorted (fun a b => (size_bytes b <= size_bytes a)%Z) (apply_sorting "Size" docs)
  /\ Sorted (fun a b => String.leb (create_time b) (create_time a) = true)
       (apply_sorting "Upload Time (Newest)" docs)
  /\ Sorted (fun a b => String.leb (create_time a) (create_time b) = true)
       (apply_sorting "Upload Time (Oldest)" docs).
Proof.
  split; [|split].
  - change (apply_sorting "Size" docs)
      with (stable_sort (fun y x => Z.ltb (size_bytes x) (size_bytes y)) docs).
    eapply Sorted_weaken; [|apply stable_sort_Sorted].
    + intros a b Hab. unfold in_order in Hab. apply Z.ltb_ge in Hab. exact Hab.
    + intros a b. apply z_ltb_asym.
  - change (apply_sorting "Upload Time (Newest)" docs)
      with (stable_sort (fun y x => String.ltb (create_time x) (create_time y)) docs).
    eapply Sorted_weaken; [|apply stable_sort_Sorted].
    + intros a b Hab. apply string_ltb_false_leb. exact Hab.
    + intros a b. apply string_ltb_asym.
  - change (apply_sorting "Upload Time (Oldest)" docs)
      with (stable_sort (fun y x => String.ltb (create_time y) (create_time x)) docs).
    eapply Sorted_weaken; [|apply stable_sort_Sorted].
    + intros a b Hab. apply string_ltb_false_leb. exact Hab.
    + intros a b. apply string_ltb_asym.
Qed.

(** X15.  Sorting is stable: the documents with one and the same
    display name keep their order under the Name key, and those of one
    and the same size keep theirs under the Size key, although that key
    sorts in reverse. *)
Theorem apply_sorting_stable (docs : list document) :
  (forall n : string,
      filter (fun d => display_name d = n) (apply_sorting "Name" docs)
      = filter (fun d => display_name d = n) docs)
  /\ (forall z : Z,
        filter (fun d => size_bytes d = z) (apply_sorting "Size" docs)
        = filter (fun d => size_bytes d = z) docs).
Proof.
  split.
  - intros n.
    change (apply_sorting "Name" docs)
      with (stable_sort (fun y x => String.ltb (display_name y) (display_name x)) docs).
    apply stable_sort_filter. intros a b -> ->. apply string_ltb_irrefl.
  - intros z.
    change (apply_sorting "Size" docs)
      with (stable_sort (fun y x => Z.ltb (size_bytes x) (size_bytes y)) docs).
    apply stable_sort_filter. intros a b -> ->. apply Z.ltb_irrefl.
Qed.

End SortExtras.

(** ** Chat *)

Section ChatExtras.
Import Chat.

(** The chat, outcome by outcome. *)
Lemma chat_with_documents_cases (reply : generate_call -> result pyval)
    (store_name query : string) (use_google_search : bool) (w : chat_world) :
  (exists (response text : pyval),
      reply (chat_call store_name query use_google_search) = Ok response
      /\ getattr response "text" = Ok text
      /\ chat_with_documents reply store_name query use_google_search w
         = (Ok (Some (if truthy text then text else PStr fallback_answer),
                snd (Citations.extract_body response [])),
            ChatWorld
              (generate_calls w ++ [chat_call store_name query use_google_search])
              (chat_errors w)))
  \/ (exists e : exn,
        (reply (chat_call store_name query use_google_search) = Raise e
         \/ exists response,
              reply (chat_call store_name query use_google_search) = Ok response
              /\ getattr response "text" = Raise e)
        /\ chat_with_documents reply store_name query use_google_search w
           = (Ok (None, []),
              ChatWorld
                (generate_calls w ++ [chat_call store_name query use_google_search])
                (chat_errors w ++ [e]))).
Proof.
  unfold chat_with_documents, chat_call.
  cbv [try_except bind generate_content lift ret chat_failed modify].
  destruct use_google_search;
    (match goal with
     | |- context [reply ?c] => destruct (reply c) as [response|e] eqn:Hreply
     end;
     [ destruct (getattr response "text") as [text|e] eqn:Htext;
       [ left; exists response, text;
         split; [first [reflexivity|exact Hreply]|];
         split; [exact Htext|];
         rewrite ?Htext, extract_citations_collected; reflexivity
       | right; exists e; split;
         [right; exists response; split; [first [reflexivity|exact Hreply]|exact Htext]
         |rewrite ?Htext; reflexivity] ]
     | right; exists e; split; [left; reflexivity|reflexivity] ]).
Qed.

(** X16.  A chat never raises and makes exactly one call to the
    generative service, with the model gemini-2.5-flash, the query as it
    was given and exactly one tool: the web search if that was asked
    for, else the file search over the one store.  A failed call is not
    repeated. *)
Theorem chat_makes_one_call (reply : generate_call -> result pyval)
    (store_name query : string) (use_google_search : bool) (w : chat_world) :
  exists (answer : option pyval * list pyval) (w' : chat_world),
    chat_with_documents reply store_name query use_google_search w = (Ok answer, w')
    /\ generate_calls w'
       = generate_calls w
         ++ [GenerateContent "gemini-2.5-flash" query
               [if use_google_search then GoogleSearchTool
                else FileSearchTool [store_name]]].
Proof.
  destruct (chat_with_documents_cases reply store_name query use_google_search w)
    as [(response & text & _ & _ & ->)|(e & _ & ->)];
    eexists _, _; split; reflexivity.
Qed.

(** X17.  A chat ends in one of two ways.  Either it returns no answer
    and no citation and shows one error: then the call failed or the
    response had no text attribute.  Or it returns an answer that is
    never empty, the text of the response or, when that is empty, the
    fixed fallback sentence, together with the citations extracted from
    that response, and shows no error. *)
Theorem chat_answer_never_empty (reply : generate_call -> result pyval)
    (store_name query : string) (use_google_search : bool) (w w' : chat_world)
    (answer : option pyval) (citations : list pyval) :
  chat_with_documents reply store_name query use_google_search w
  = (Ok (answer, citations), w') ->
  match answer with
  | None => citations = [] /\ exists e, chat_errors w' = chat_errors w ++ [e]
  | Some text =>
      truthy text = true
      /\ chat_errors w' = chat_errors w
      /\ exists response,
           reply (GenerateContent "gemini-2.5-flash" query
                    [if use_google_search then GoogleSearchTool
                     else FileSearchTool [store_name]]) = Ok response
           /\ Citations.extract_citations response = Ok citations
           /\ (getattr response "text" = Ok text \/ text = PStr fallback_answer)
  end.
Proof.
  destruct (chat_with_documents_cases reply store_name query use_google_search w)
    as [(response & text & Hreply & Htext & ->)|(e & _ & ->)].
  - intros [= <- <- <-]. simpl.
    split; [destruct (truthy text) eqn:Ht; [exact Ht|reflexivity]|].
    split; [reflexivity|]. exists response.
    split; [exact Hreply|]. split; [apply extract_citations_collected|].
    destruct (truthy text); auto.
  - intros [= <- <- <-]. simpl. eauto.
Qed.

Lemma chat_answer_never_empty_witness :
  truthy (PStr fallback_answer) = true
  /\ chat_errors (ChatWorld [chat_call "fileSearchStores/docs" "what?" false] [])
     = chat_errors (ChatWorld [] [])
  /\ exists response,
       (fun _ => Ok (PObj [("text", PStr "")]))
         (GenerateContent "gemini-2.5-flash" "what?"
            [if false then GoogleSearchTool
             else FileSearchTool ["fileSearchStores/docs"]]) = Ok response
       /\ Citations.extract_citations response = Ok []
       /\ (getattr response "text" = Ok (PStr fallback_answer)
           \/ PStr fallback_answer = PStr fallback_answer).
Proof.
  apply (chat_answer_never_empty (fun _ => Ok (PObj [("text", PStr "")]))
           "fileSearchStores/docs" "what?" false (ChatWorld [] [])
           (ChatWorld [chat_call "fileSearchStores/docs" "what?" false] [])
           (Some (PStr fallback_answer)) []).
  reflexivity.
Defined.

(** X18.  The chat history only grows: a prompt adds the user's message
    and, behind it, at most one message of the assistant, whose content
    is never empty; after a failed chat the question stays in the
    history without an answer. *)
Theorem handle_prompt_appends (reply : generate_call -> result pyval)
    (store_name prompt : string) (use_google_search : bool)
    (messages : list message) (w : chat_world) :
  exists (added : list message) (w' : chat_world),
    handle_prompt reply store_name prompt use_google_search messages w
    = (Ok (messages ++ Message "user" (PStr prompt) None :: added), w')
    /\ ((added = [] /\ exists e, chat_errors w' = chat_errors w ++ [e])
        \/ (exists text citations,
              added = [Message "assistant" text (Some citations)]
              /\ truthy text = true
              /\ chat_errors w' = chat_errors w)).
Proof.
  unfold handle_prompt. unfold bind.
  destruct (chat_with_documents_cases reply store_name prompt use_google_search w)
    as [(response & text & _ & _ & ->)|(e & _ & ->)]; cbn [fst snd].
  - assert (truthy (if truthy text then text else PStr fallback_answer) = true)
      as Ht by (destruct (truthy text) eqn:E; [exact E|reflexivity]).
    rewrite Ht. unfold ret.
    eexists [_]. eexists. split; [by rewrite <- app_assoc|].
    right. eexists _, _. split; [reflexivity|]. split; [exact Ht|reflexivity].
  - unfold ret. exists []. eexists. split; [reflexivity|].
    left. split; [reflexivity|]. exists e. reflexivity.
Qed.

End ChatExtras.

(** ** Document catalog *)

Section CatalogExtras.
Import Env Upload Catalog.

Lemma basename_no_slash (p : string) : has_slash (basename p) = false.
Proof.
  induction p as [|c rest IH]; simpl; [reflexivity|].
  destruct (has_slash rest) eqn:Hrest; [exact IH|].
  destruct (Ascii.eqb c "/") eqn:Hc; [exact Hrest|].
  simpl. by rewrite Hc, Hrest.
Qed.

Lemma basename_suffix (p : string) :
  exists dir : string,
    p = dir +:+ basename p /\ (dir = "" \/ exists d, dir = d +:+ "/").
Proof.
  induction p as [|c rest (dir & Hdir & Hend)]; simpl.
  - exists "". auto.
  - destruct (has_slash rest) eqn:Hrest.
    + exists (String c dir).
      split; [change (String c rest = String c (dir +:+ basename rest));
              f_equal; exact Hdir|].
      right.
      destruct Hend as [->|(d & ->)].
      * (* the slash is in [rest] and [rest] is its own base name: excluded *)
        change ("" +:+ basename rest) with (basename rest) in Hdir.
        rewrite Hdir, basename_no_slash in Hrest. discriminate.
      * exists (String c d). reflexivity.
    + destruct (Ascii.eqb_spec c "/") as [->|Hc].
      * exists "/". split; [reflexivity|]. right. exists "". reflexivity.
      * exists "". auto.
Qed.

(** A string-valued entry puts its value under its key. *)
Lemma read_entry_string (entry : pyval) (k : string) (value : pyval)
    (custom_meta : gmap string pyval) :
  attr_of entry "key" = Some (PStr k) ->
  attr_of entry "string_value" = Some value ->
  read_entry entry custom_meta = (Ok tt, <[k := value]> custom_meta).
Proof.
  intros Hk Hv. unfold read_entry, store_entry, hasattr, getattr.
  rewrite Hv. cbv [bind lift modify]. rewrite ?Hv, ?Hk. reflexivity.
Qed.

Lemma read_stored_entries (P : platform) (md : list (string * pyval))
    (custom_meta : gmap string pyval) :
  for_each (map stored_entry (metadata_entries P md)) read_entry custom_meta
  = (Ok tt,
     foldl (fun m kv => <[fst kv := PStr (py_str P (snd kv))]> m) custom_meta md).
Proof.
  revert custom_meta. induction md as [|[k v] md IH]; intros custom_meta; simpl.
  - reflexivity.
  - unfold bind at 1.
    rewrite (read_entry_string _ k (PStr (py_str P v))) by reflexivity.
    apply IH.
Qed.

Lemma foldl_insert_lookup (P : platform) (md : list (string * pyval))
    (m : gmap string pyval) (k : string) :
  (k ∉ map fst md ->
   foldl (fun m kv => <[fst kv := PStr (py_str P (snd kv))]> m) m md !! k = m !! k)
  /\ (NoDup (map fst md) -> forall v, (k, v) ∈ md ->
      foldl (fun m kv => <[fst kv := PStr (py_str P (snd kv))]> m) m md !! k
      = Some (PStr (py_str P v))).
Proof.
  revert m. induction md as [|[k' v'] md IH]; intros m; simpl.
  - split; [reflexivity|]. intros _ v Hin. inversion Hin.
  - split.
    + intros Hnot. apply not_elem_of_cons in Hnot as [Hne Hnot].
      rewrite (proj1 (IH _) Hnot). by rewrite lookup_insert_ne.
    + intros Hnd v Hin. apply NoDup_cons in Hnd as [Hfresh Hnd].
      apply elem_of_cons in Hin as [[= <- <-]|Hin].
      * rewrite (proj1 (IH _) Hfresh). apply lookup_insert_eq.
      * by apply (proj2 (IH _) Hnd).
Qed.

(** X19.  Metadata survives the round trip through the remote service
    as strings: when a document carries the entries that
    [upload_document] sends for a mapping, the catalog reads back a
    dictionary with exactly the keys of the mapping, each bound to the
    string rendering of its value. *)
Theorem custom_metadata_round_trip (P : platform) (md : list (string * pyval))
    (doc : pyval) :
  NoDup (map fst md) ->
  attr_of doc "custom_metadata"
  = Some (PList (map stored_entry (metadata_entries P md))) ->
  exists m : gmap string pyval,
    custom_metadata_of doc = Ok m
    /\ (forall k v, (k, v) ∈ md -> m !! k = Some (PStr (py_str P v)))
    /\ (forall k, k ∉ map fst md -> m !! k = None).
Proof.
  intros Hnd Hattr.
  exists (foldl (fun m kv => <[fst kv := PStr (py_str P (snd kv))]> m) ∅ md).
  split; [|split].
  - unfold custom_metadata_of, hasattr, getattr. rewrite Hattr.
    cbv [bind lift]. destruct md as [|kv md]; [reflexivity|].
    change (truthy (PList (map stored_entry (metadata_entries P (kv :: md)))))
      with true.
    cbv [iter ret]. by rewrite read_stored_entries.
  - intros k v Hin. by apply (proj2 (foldl_insert_lookup P md ∅ k) Hnd).
  - intros k Hnot. by rewrite (proj1 (foldl_insert_lookup P md ∅ k) Hnot).
Qed.

Lemma custom_metadata_round_trip_witness :
  exists m : gmap string pyval,
    custom_metadata_of
      (PObj [("name", PStr "fileSearchStores/docs/documents/d1");
             ("custom_metadata",
              PList (map stored_entry
                       (metadata_entries (sample_platform None PNone)
                          [("year", PInt 2024); ("author", PStr "Ada")])))])
    = Ok m
    /\ (forall k v, (k, v) ∈ [("year", PInt 2024); ("author", PStr "Ada")] ->
        m !! k = Some (PStr (py_str (sample_platform None PNone) v)))
    /\ (forall k, k ∉ map fst [("year", PInt 2024); ("author", PStr "Ada")] ->
        m !! k = None).
Proof.
  apply custom_metadata_round_trip; [|reflexivity].
  simpl. apply NoDup_cons. split; [|apply NoDup_singleton].
  intros Hin. apply list_elem_of_singleton in Hin. discriminate.
Defined.

(** X20.  The value fields of an entry are tried in a fixed order and
    the mere presence of the attribute decides: an entry that has a
    [string_value] attribute is read as that value, also when it is
    [None] and the entry carries a number besides; and of two entries
    with the same key the later one wins. *)
Theorem custom_metadata_precedence (doc entry entry' : pyval) (k : string)
    (value value' : pyval) :
  attr_of entry "key" = Some (PStr k) ->
  attr_of entry "string_value" = Some value ->
  attr_of entry' "key" = Some (PStr k) ->
  attr_of entry' "string_value" = Some value' ->
  (attr_of doc "custom_metadata" = Some (PList [entry]) ->
   custom_metadata_of doc = Ok {[k := value]})
  /\ (attr_of doc "custom_metadata" = Some (PList [entry; entry']) ->
      custom_metadata_of doc = Ok {[k := value']}).
Proof.
  intros Hk Hv Hk' Hv'. split; intros Hattr;
    unfold custom_metadata_of, hasattr, getattr; rewrite Hattr;
    cbv [bind lift iter truthy for_each ret].
  - rewrite (read_entry_string entry k value ∅ Hk Hv). by rewrite insert_empty.
  - rewrite (read_entry_string entry k value ∅ Hk Hv).
    rewrite (read_entry_string entry' k value' _ Hk' Hv').
    by rewrite insert_insert_eq, insert_empty.
Qed.

Lemma custom_metadata_precedence_witness :
  custom_metadata_of
    (PObj [("custom_metadata",
            PList [PObj [("key", PStr "pages"); ("string_value", PNone);
                         ("numeric_value", PInt 12)]])])
  = Ok {["pages" := PNone]}.
Proof.
  apply (proj1 (custom_metadata_precedence
                  (PObj [("custom_metadata",
                          PList [PObj [("key", PStr "pages"); ("string_value", PNone);
                                       ("numeric_value", PInt 12)]])])
                  (PObj [("key", PStr "pages"); ("string_value", PNone);
                         ("numeric_value", PInt 12)])
                  (PObj [("key", PStr "pages"); ("string_value", PNone);
                         ("numeric_value", PInt 12)])
                  "pages" PNone PNone eq_refl eq_refl eq_refl eq_refl)).
  reflexivity.
Defined.

Lemma for_each_records (docs : list pyval) (acc : list doc_record)
    (shown : list catalog_error) :
  (exists records : list doc_record,
      Forall2 (fun doc r => listed_record doc = Ok r) docs records
      /\ for_each docs (fun doc => do r <- lift (listed_record doc); append_record r)
           (acc, shown)
         = (Ok tt, (acc ++ records, shown)))
  \/ (exists (e : exn) (partial : list doc_record),
        for_each docs (fun doc => do r <- lift (listed_record doc); append_record r)
          (acc, shown)
        = (Raise e, (partial, shown))).
Proof.
  revert acc. induction docs as [|doc docs IH]; intros acc.
  - left. exists []. split; [constructor|]. simpl. unfold ret. by rewrite app_nil_r.
  - assert (for_each (doc :: docs)
              (fun doc => do r <- lift (listed_record doc); append_record r)
              (acc, shown)
            = match listed_record doc with
              | Ok r =>
                  for_each docs
                    (fun doc => do r <- lift (listed_record doc); append_record r)
                    (acc ++ [r], shown)
              | Raise e => (Raise e, (acc, shown))
              end) as ->
      by (simpl; unfold bind at 1; cbv [bind lift append_record modify];
          destruct (listed_record doc); reflexivity).
    destruct (listed_record doc) as [r|e] eqn:Hr.
    + destruct (IH (acc ++ [r])) as [(records & Hall & ->)|(e & partial & ->)].
      * left. exists (r :: records). split; [by constructor|].
        by rewrite <- app_assoc.
      * right. eauto.
    + right. eauto.
Qed.

Lemma list_all_documents_eq (listing : string -> list pyval * option exn)
    (store_name : string) (shown : list catalog_error) :
  list_all_documents listing store_name shown
  = match for_each (fst (listing store_name))
            (fun doc => do r <- lift (listed_record doc); append_record r)
            ([], shown) with
    | (Ok _, s) =>
        match snd (listing store_name) with
        | Some e => ([], snd s ++ [FailedToListDocuments e])
        | None => (fst s, snd s)
        end
    | (Raise e, s) => ([], snd s ++ [FailedToListDocuments e])
    end.
Proof.
  unfold list_all_documents, try_except. unfold bind at 1.
  destruct (for_each _ _ _) as [[[]|e] s]; [|reflexivity].
  destruct (snd (listing store_name)) as [e|]; reflexivity.
Qed.

(** X21.  [list_all_documents] is all or nothing: it returns the record
    of every document of the store, in the order of the listing, and
    shows no error; or, when the listing fails or one single document
    cannot be read, it shows one error and returns the empty list,
    dropping the records already built. *)
Theorem list_all_documents_all_or_nothing
    (listing : string -> list pyval * option exn) (store_name : string)
    (shown : list catalog_error) :
  (Forall2 (fun doc r => listed_record doc = Ok r) (fst (listing store_name))
     (fst (list_all_documents listing store_name shown))
   /\ snd (listing store_name) = None
   /\ snd (list_all_documents listing store_name shown) = shown)
  \/ (fst (list_all_documents listing store_name shown) = []
      /\ exists e,
           snd (list_all_documents listing store_name shown)
           = shown ++ [FailedToListDocuments e]).
Proof.
  rewrite list_all_documents_eq.
  destruct (for_each_records (fst (listing store_name)) [] shown)
    as [(records & Hall & ->)|(e & partial & ->)].
  - destruct (snd (listing store_name)) as [e|]; cbn [fst snd].
    + right. eauto.
    + left. auto.
  - right. cbn [fst snd]. eauto.
Qed.

(** The attributes a record can only be built from. *)
Lemma listed_record_inv (doc : pyval) (r : doc_record) :
  listed_record doc = Ok r ->
  exists name shown_name,
    custom_metadata_of doc = Ok (custom_metadata r)
    /\ getattr doc "name" = Ok name
    /\ getattr doc "display_name" = Ok shown_name
    /\ id r = name
    /\ display_name r
       = (if truthy shown_name then shown_name
          else match name with PStr n => PStr (basename n) | _ => PNone end)
    /\ attr_or doc "state" (PStr "UNKNOWN") = Ok (state r)
    /\ attr_or doc "size_bytes" (PInt 0) = Ok (size_bytes r).
Proof.
  unfold listed_record, and_then. intros H.
  repeat match type of H with
         | context [match ?x with Ok _ => _ | Raise _ => _ end] =>
             destruct x eqn:?; try discriminate
         | context [if ?b then _ else _] => destruct b eqn:?
         end;
    injection H as <-; cbn [id display_name state size_bytes custom_metadata];
    eexists _, _; repeat split; try reflexivity.
  match goal with
  | Hn : (if truthy ?d then Ok ?d else os_path_basename ?n) = Ok ?a |- _ =>
      destruct (truthy d); [by injection Hn|];
      destruct n; try discriminate; by injection Hn
  end.
Qed.

(** X22.  A document whose display name is [None] or empty is listed
    under the last segment of its resource name: the part after the last
    slash, which itself holds no slash.  A document that has no
    [display_name] attribute at all is not listed: unlike the state and
    the size, the display name is read without a [hasattr] guard, so the
    record cannot be built and [AttributeError] is raised. *)
Theorem listed_record_fallback_name (doc : pyval) :
  (forall (r : doc_record) (n : string) (shown_name : pyval),
      listed_record doc = Ok r ->
      getattr doc "name" = Ok (PStr n) ->
      getattr doc "display_name" = Ok shown_name ->
      truthy shown_name = false ->
      id r = PStr n
      /\ display_name r = PStr (basename n)
      /\ has_slash (basename n) = false
      /\ exists dir : string,
           n = dir +:+ basename n /\ (dir = "" \/ exists d, dir = d +:+ "/"))
  /\ (hasattr doc "display_name" = false ->
      (forall r : doc_record, listed_record doc <> Ok r)
      /\ (forall (custom_meta : gmap string pyval) (name : pyval),
             custom_metadata_of doc = Ok custom_meta ->
             getattr doc "name" = Ok name ->
             listed_record doc = Raise (AttributeError "display_name"))).
Proof.
  split.
  - intros r n shown_name Hr Hn Hd Ht.
    destruct (listed_record_inv doc r Hr)
      as (name & shown' & _ & Hn' & Hd' & Hid & Hname & _).
    rewrite Hn in Hn'. injection Hn' as <-.
    rewrite Hd in Hd'. injection Hd' as <-.
    rewrite Ht in Hname.
    split; [exact Hid|]. split; [exact Hname|].
    split; [apply basename_no_slash|apply basename_suffix].
  - intros Habsent.
    assert (getattr doc "display_name" = Raise (AttributeError "display_name"))
      as Hraise.
    { unfold hasattr in Habsent. unfold getattr.
      destruct (attr_of doc "display_name"); [discriminate|reflexivity]. }
    split.
    + intros r Hr.
      destruct (listed_record_inv doc r Hr) as (name & shown' & _ & _ & Hd & _).
      rewrite Hraise in Hd. discriminate.
    + intros custom_meta name Hcm Hn.
      unfold listed_record, and_then. by rewrite Hcm, Hn, Hraise.
Qed.

Lemma listed_record_fallback_name_witness :
  id (DocRecord (PStr "fileSearchStores/docs/documents/d1") (PStr "d1")
        (PStr "UNKNOWN") (PInt 0) (PStr "unknown") (PStr "") (PStr "") ∅)
  = PStr "fileSearchStores/docs/documents/d1"
  /\ display_name
       (DocRecord (PStr "fileSearchStores/docs/documents/d1") (PStr "d1")
          (PStr "UNKNOWN") (PInt 0) (PStr "unknown") (PStr "") (PStr "") ∅)
     = PStr (basename "fileSearchStores/docs/documents/d1")
  /\ has_slash (basename "fileSearchStores/docs/documents/d1") = false
  /\ exists dir : string,
       "fileSearchStores/docs/documents/d1"
       = dir +:+ basename "fileSearchStores/docs/documents/d1"
       /\ (dir = "" \/ exists d, dir = d +:+ "/").
Proof.
  apply (proj1 (listed_record_fallback_name
                  (PObj [("name", PStr "fileSearchStores/docs/documents/d1");
                         ("display_name", PNone)]))
           _ _ PNone); reflexivity.
Defined.

(** A document that carries only its resource name is not listed. *)
Example listed_record_without_display_name :
  listed_record (PObj [("name", PStr "fileSearchStores/docs/documents/d1")])
  = Raise (AttributeError "display_name").
Proof. reflexivity. Qed.

(** X23.  The two views treat a missing attribute differently: a
    document without [state] attribute is listed, with the state
    "UNKNOWN", but its details cannot be shown: [get_document_details]
    returns nothing and shows the attribute error. *)
Theorem missing_state_listed_not_detailed (fetch : string -> result pyval)
    (doc_id : string) (doc : pyval) (r : doc_record) (shown : list catalog_error) :
  fetch doc_id = Ok doc ->
  listed_record doc = Ok r ->
  hasattr doc "state" = false ->
  state r = PStr "UNKNOWN"
  /\ get_document_details fetch doc_id shown
     = (None, shown ++ [FailedToGetDocumentDetails (AttributeError "state")]).
Proof.
  intros Hfetch Hr Hstate.
  destruct (listed_record_inv doc r Hr)
    as (name & shown' & Hcm & Hn & Hd & _ & _ & Hst & _).
  unfold attr_or in Hst. rewrite Hstate in Hst. injection Hst as Hst.
  split; [by symmetry|].
  unfold get_document_details, and_then. rewrite Hfetch.
  unfold detailed_record, and_then. rewrite Hcm, Hn, Hd.
  unfold hasattr in Hstate. unfold getattr at 1.
  destruct (attr_of doc "state"); [discriminate|]. reflexivity.
Qed.

Lemma missing_state_listed_not_detailed_witness :
  state (DocRecord (PStr "documents/d1") (PStr "Notes") (PStr "UNKNOWN") (PInt 0)
           (PStr "unknown") (PStr "") (PStr "") ∅)
  = PStr "UNKNOWN"
  /\ get_document_details
       (fun _ => Ok (PObj [("name", PStr "documents/d1");
                           ("display_name", PStr "Notes")]))
       "documents/d1" []
     = (None, [] ++ [FailedToGetDocumentDetails (AttributeError "state")]).
Proof.
  apply (missing_state_listed_not_detailed
           (fun _ => Ok (PObj [("name", PStr "documents/d1");
                               ("display_name", PStr "Notes")]))
           "documents/d1"
           (PObj [("name", PStr "documents/d1"); ("display_name", PStr "Notes")]));
    reflexivity.
Defined.

End CatalogExtras.

(** ** Filters of the inventory *)

Section FilterExtras.
Import Inventory SortKeys Filters.

Lemma prefix_app (needle hay : string) :
  String.prefix needle hay = true <-> exists post, hay = needle +:+ post.
Proof.
  revert hay. induction needle as [|c needle IH]; intros hay.
  - split; [intros _; exists hay; reflexivity|].
    intros _. destruct hay; reflexivity.
  - destruct hay as [|c' hay].
    + split; [discriminate|]. intros (post & Hpost). discriminate.
    + change (String.prefix (String c needle) (String c' hay))
        with (if Ascii.ascii_dec c c' then String.prefix needle hay else false).
      destruct (Ascii.ascii_dec c c') as [<-|Hne].
      * rewrite IH. split; intros (post & Hpost); exists post.
        -- rewrite Hpost. reflexivity.
        -- change (String c needle +:+ post) with (String c (needle +:+ post)) in Hpost.
           by injection Hpost.
      * split; [discriminate|]. intros (post & Hpost).
        change (String c needle +:+ post) with (String c (needle +:+ post)) in Hpost.
        congruence.
Qed.

(** [contains] is the substring test. *)
Lemma contains_spec (needle hay : string) :
  contains needle hay = true <-> exists pre post, hay = pre +:+ needle +:+ post.
Proof.
  induction hay as [|c hay IH].
  - change (contains needle "") with (String.prefix needle "" || false).
    rewrite orb_false_r, prefix_app. split.
    + intros (post & Hpost). exists "", post. exact Hpost.
    + intros (pre & post & Hpost).
      destruct pre; [exists post; exact Hpost|discriminate].
  - change (contains needle (String c hay))
      with (String.prefix needle (String c hay) || contains needle hay).
    rewrite orb_true_iff, IH, prefix_app. split.
    + intros [(post & Hpost)|(pre & post & ->)].
      * exists "", post. exact Hpost.
      * exists (String c pre), post. reflexivity.
    + intros (pre & post & Hpost). destruct pre as [|c' pre].
      * left. exists post. exact Hpost.
      * right. injection Hpost as _ ->. eauto.
Qed.

Lemma apply_filters_sublist (str_lower : string -> string)
    (state_filter search_term : string) (documents : list document) :
  apply_filters str_lower state_filter search_term documents `sublist_of` documents.
Proof.
  unfold apply_filters.
  destruct (String.eqb state_filter "All"), (String.eqb search_term ""); simpl;
    try reflexivity; try apply sublist_filter.
  etransitivity; apply sublist_filter.
Qed.

Lemma apply_filters_elem (str_lower : string -> string)
    (state_filter search_term : string) (documents : list document) (d : document) :
  d ∈ apply_filters str_lower state_filter search_term documents
  <-> d ∈ documents
      /\ (state_filter = "All" \/ state d = state_filter)
      /\ (search_term = ""
          \/ exists pre post,
               str_lower (display_name d) = pre +:+ str_lower search_term +:+ post).
Proof.
  unfold apply_filters.
  destruct (String.eqb_spec state_filter "All") as [Hall|Hall];
    destruct (String.eqb_spec search_term "") as [Hterm|Hterm]; simpl;
    rewrite ?list_elem_of_filter, ?contains_spec; tauto.
Qed.

(** X24.  The filters keep exactly the documents that pass both tests,
    in their order: the state must equal the chosen state unless "All" is
    chosen, and the lowered display name must contain the lowered search
    term as a substring unless the search term is empty.  So the number
    shown never exceeds the number of documents. *)
Theorem apply_filters_keeps_matches (str_lower : string -> string)
    (state_filter search_term : string) (documents : list document) :
  apply_filters str_lower state_filter search_term documents `sublist_of` documents
  /\ length (apply_filters str_lower state_filter search_term documents)
     <= length documents
  /\ forall d : document,
       d ∈ apply_filters str_lower state_filter search_term documents
       <-> d ∈ documents
           /\ (state_filter = "All" \/ state d = state_filter)
           /\ (search_term = ""
               \/ exists pre post,
                    str_lower (display_name d)
                    = pre +:+ str_lower search_term +:+ post).
Proof.
  split; [apply apply_filters_sublist|].
  split; [apply sublist_length, apply_filters_sublist|].
  intros d. apply apply_filters_elem.
Qed.

Lemma filter_all {A} (P : A -> Prop) `{!forall x, Decision (P x)} (l : list A) :
  Forall P l -> filter P l = l.
Proof.
  induction 1 as [|x l Hx Hl IH]; [reflexivity|].
  by rewrite filter_cons, decide_True, IH.
Qed.

Lemma filter_filter_same {A} (P : A -> Prop) `{!forall x, Decision (P x)} (l : list A) :
  filter P (filter P l) = filter P l.
Proof.
  apply filter_all, Forall_forall. intros x Hx.
  by apply list_elem_of_filter in Hx as [Hx _].
Qed.

(** Filtering what was already filtered and sorted changes nothing. *)
Lemma apply_filters_fixed (str_lower : string -> string)
    (state_filter search_term : string) (documents shown : list document) :
  shown ≡ₚ apply_filters str_lower state_filter search_term documents ->
  apply_filters str_lower state_filter search_term shown = shown.
Proof.
  intros Hperm.
  assert (forall d, d ∈ shown ->
            (state_filter = "All" \/ state d = state_filter)
            /\ (search_term = ""
                \/ contains (str_lower search_term) (str_lower (display_name d)) = true))
    as Hall.
  { intros d Hd. rewrite Hperm in Hd.
    apply apply_filters_elem in Hd as (_ & Hs & Ht).
    split; [exact Hs|]. destruct Ht as [Ht|Ht]; [auto|].
    right. by apply contains_spec. }
  assert (state_filter <> "All" ->
          Forall (fun d => state d = state_filter) shown) as HallS.
  { intros Hs. apply Forall_forall. intros d Hd.
    destruct (Hall d Hd) as [[?|?] _]; congruence. }
  assert (search_term <> "" ->
          Forall (fun d => contains (str_lower search_term)
                             (str_lower (display_name d)) = true) shown) as HallT.
  { intros Ht. apply Forall_forall. intros d Hd.
    destruct (Hall d Hd) as [_ [?|?]]; congruence. }
  unfold apply_filters.
  destruct (String.eqb_spec state_filter "All") as [Hs|Hs];
    destruct (String.eqb_spec search_term "") as [Ht|Ht]; simpl.
  - reflexivity.
  - by rewrite filter_all by auto.
  - by rewrite filter_all by auto.
  - rewrite (filter_all (fun d => state d = state_filter)) by auto.
    by rewrite filter_all by auto.
Qed.

(** X25.  Filtering and sorting is idempotent: applied with the same
    choices to the list it produced, it gives that list back. *)
Theorem filter_and_sort_idempotent (str_lower : string -> string)
    (state_filter search_term sort_by : string) (documents : list document) :
  filter_and_sort str_lower state_filter search_term sort_by
    (filter_and_sort str_lower state_filter search_term sort_by documents)
  = filter_and_sort str_lower state_filter search_term sort_by documents.
Proof.
  unfold filter_and_sort.
  rewrite (apply_filters_fixed str_lower state_filter search_term documents).
  - apply apply_sorting_again.
  - apply apply_sorting_perm.
Qed.

End FilterExtras.

(** ** Sizes for display *)

Section FormatExtras.
Import Format.

Lemma round_half_even_near (num den : Z) :
  (0 < den)%Z ->
  (2 * Z.abs (num - round_half_even num den * den) <= den)%Z.
Proof.
  intros Hden. unfold round_half_even.
  pose proof (Z.div_mod num den ltac:(lia)) as Hdm.
  pose proof (Z.mod_pos_bound num den Hden) as Hr.
  set (q := (num / den)%Z) in *. set (r := (num mod den)%Z) in *.
  destruct (Z.ltb_spec (2 * r) den); [lia|].
  destruct (Z.ltb_spec den (2 * r)); [lia|].
  destruct (Z.even q); lia.
Qed.

Lemma in_unit_shown (unit n : Z) :
  (0 < unit)%Z -> (unit <= n)%Z ->
  exists h : Z,
    in_unit unit n = fixed2 h
    /\ (100 <= h)%Z
    /\ (2 * Z.abs (100 * n - h * unit) <= unit)%Z.
Proof.
  intros Hunit Hn. exists (round_half_even (100 * n) unit).
  split; [reflexivity|].
  pose proof (round_half_even_near (100 * n) unit Hunit) as Hnear.
  split; [|exact Hnear]. nia.
Qed.

(** X26.  A size of at least 1024 bytes (and below 2^53) is shown in the
    largest of the units KB, MB and GB that does not exceed it, as a
    number with two decimals that is at least 1.00 and differs from the
    exact quotient by at most half a hundredth; a smaller size is shown
    as the exact number of bytes. *)
Theorem format_bytes_rounding (n : Z) :
  (n < 2 ^ 53)%Z ->
  ((n < 1024)%Z -> format_bytes n = pretty n +:+ " B")
  /\ ((1024 <= n)%Z ->
      exists (h unit : Z) (suffix : string),
        format_bytes n = fixed2 h +:+ suffix
        /\ ((unit = 1024 /\ suffix = " KB")
            \/ (unit = 1024 ^ 2 /\ suffix = " MB")
            \/ (unit = 1024 ^ 3 /\ suffix = " GB"))%Z
        /\ (unit <= n)%Z
        /\ (suffix = " GB" \/ n < 1024 * unit)%Z
        /\ (100 <= h)%Z
        /\ (2 * Z.abs (100 * n - h * unit) <= unit)%Z).
Proof.
  intros _. unfold format_bytes. split.
  - intros Hn. destruct (Z.ltb_spec n 1024); [reflexivity|lia].
  - intros Hn. destruct (Z.ltb_spec n 1024); [lia|].
    destruct (Z.ltb_spec n (1024 ^ 2)).
    { destruct (in_unit_shown 1024 n) as (h & -> & Hh & Herr); [lia|lia|].
      exists h, 1024%Z, " KB". repeat split; auto; lia. }
    destruct (Z.ltb_spec n (1024 ^ 3)).
    { destruct (in_unit_shown (1024 ^ 2) n) as (h & -> & Hh & Herr); [lia|lia|].
      exists h, (1024 ^ 2)%Z, " MB". repeat split; auto; lia. }
    destruct (in_unit_shown (1024 ^ 3) n) as (h & -> & Hh & Herr); [lia|lia|].
    exists h, (1024 ^ 3)%Z, " GB". repeat split; auto; lia.
Qed.

Lemma format_bytes_rounding_witness :
  exists (h unit : Z) (suffix : string),
    format_bytes 1048575 = fixed2 h +:+ suffix
    /\ ((unit = 1024 /\ suffix = " KB")
        \/ (unit = 1024 ^ 2 /\ suffix = " MB")
        \/ (unit = 1024 ^ 3 /\ suffix = " GB"))%Z
    /\ (unit <= 1048575)%Z
    /\ (suffix = " GB" \/ 1048575 < 1024 * unit)%Z
    /\ (100 <= h)%Z
    /\ (2 * Z.abs (100 * 1048575 - h * unit) <= unit)%Z.
Proof.
  apply (proj2 (format_bytes_rounding 1048575 ltac:(lia))). lia.
Defined.

(** One byte below a megabyte is shown as 1024.00 KB, and a tie is
    rounded to the even hundredth. *)
Example format_bytes_edges :
  format_bytes 1048575 = "1024.00 KB"
  /\ format_bytes 1152 = "1.12 KB"
  /\ format_bytes 1023 = "1023 B"
  /\ format_bytes (5 * 1024 ^ 3) = "5.00 GB".
Proof. repeat split; vm_compute; reflexivity. Qed.

End FormatExtras.

(** ** The backend: corpus and upload *)

Section BackendExtras.
Import Env Corpus.

(** X27.  The backend resolves its corpus once: after a call that
    returned a corpus, every further call returns that corpus without
    any call to the RAG engine.  And unlike the store lookup of the
    front end, a listing that fails before the corpus was seen makes the
    call fail: no corpus is created and none is remembered. *)
Theorem get_or_create_corpus_once (R : rag_api) (s : backend_state) :
  (forall (c : corpus) (s1 : backend_state),
      get_or_create_corpus R s = (Ok c, s1) ->
      get_or_create_corpus R s1 = (Ok c, s1))
  /\ (forall (yielded : list corpus) (e : exn),
        rag_corpus s = None ->
        list_corpora_reply R (corpora s) = (yielded, Some e) ->
        find_corpus CORPUS_NAME yielded = None ->
        get_or_create_corpus R s
        = (Raise e, BackendState None (corpora s) (rag_calls s ++ [ListCorpora]))).
Proof.
  split.
  - intros c s1. unfold get_or_create_corpus.
    unfold bind at 1. unfold get at 1.
    destruct (rag_corpus s) as [cached|] eqn:Hs.
    { unfold ret. intros [= <- <-]. unfold bind, get. by rewrite Hs. }
    intros Hfirst.
    assert (rag_corpus s1 = Some c) as Hs1.
    { revert Hfirst.
      cbv [bind try_except rag_call_made set_rag_corpus create_corpus modify
           raise ret]. simpl.
      destruct (list_corpora_reply R (corpora s)) as [yielded failure].
      destruct (find_corpus CORPUS_NAME yielded) as [found|]; simpl.
      { by intros [= <- <-]. }
      destruct failure as [e|]; simpl; [discriminate|].
      destruct (create_corpus_reply R CORPUS_NAME (corpora s)) as [made|e']; simpl;
        [by intros [= <- <-]|discriminate]. }
    unfold bind, get. by rewrite Hs1.
  - intros yielded e Hs Hlist Hfind. unfold get_or_create_corpus.
    unfold bind at 1. unfold get at 1. rewrite Hs.
    cbv [bind try_except rag_call_made modify raise]. simpl.
    rewrite Hlist, Hfind. simpl. by rewrite Hs.
Qed.

Lemma get_or_create_corpus_once_witness :
  get_or_create_corpus
    (RagApi (fun held => (held, None))
       (fun display_name _ => Ok (RagCorpus "corpora/1" display_name)))
    (BackendState (Some (RagCorpus "corpora/1" "rag-corpus-gemini"))
       [RagCorpus "corpora/1" "rag-corpus-gemini"]
       [ListCorpora; CreateCorpus "rag-corpus-gemini"])
  = (Ok (RagCorpus "corpora/1" "rag-corpus-gemini"),
     BackendState (Some (RagCorpus "corpora/1" "rag-corpus-gemini"))
       [RagCorpus "corpora/1" "rag-corpus-gemini"]
       [ListCorpora; CreateCorpus "rag-corpus-gemini"]).
Proof.
  apply (proj1 (get_or_create_corpus_once _ (BackendState None [] []))).
  reflexivity.
Defined.

(** X28.  When the upload endpoint of the backend succeeds, the file
    [/tmp/<filename>] does not exist afterwards, also if a file of that
    name was there before the request: the staging path is taken from
    the name the client sent, so the request overwrites and then removes
    whatever was at that path. *)
Theorem backend_upload_success (R : Backend.rag_platform) (file : uploaded_file)
    (files : gset string) (corpus : string) (imported : Z) :
  Backend.get_or_create_corpus R = Ok corpus ->
  Backend.buffer_write R ("/tmp/" +:+ file_name file) (file_value file) = Ok tt ->
  Backend.import_files R corpus ["/tmp/" +:+ file_name file] 512 50 = Ok imported ->
  Backend.upload_document R file files
  = (Ok imported, files ∖ {["/tmp/" +:+ file_name file]})
  /\ "/tmp/" +:+ file_name file ∉ snd (Backend.upload_document R file files).
Proof.
  intros Hcorpus Hwrite Himport.
  assert (Backend.upload_document R file files
          = (Ok imported, files ∖ {["/tmp/" +:+ file_name file]})) as ->.
  { unfold Backend.upload_document, try_except.
    cbv [bind lift Backend.open_wb Backend.remove modify ret].
    rewrite Hcorpus, Hwrite, Himport.
    rewrite bool_decide_eq_true_2
      by (apply elem_of_union_l, elem_of_singleton; reflexivity).
    by rewrite staged_then_removed. }
  split; [reflexivity|]. simpl.
  rewrite elem_of_difference, elem_of_singleton. tauto.
Qed.

Lemma backend_upload_success_witness :
  Backend.upload_document
    (Backend.RagPlatform (Backend.str_of_exn Backend.failing_rag)
       (Ok "corpora/rag-corpus-gemini") (fun _ _ => Ok tt) (fun _ _ _ _ => Ok 1%Z))
    Upload.sample_file {["/tmp/notes.txt"]}
  = (Ok 1%Z, {["/tmp/notes.txt"]} ∖ {["/tmp/" +:+ file_name Upload.sample_file]})
  /\ "/tmp/" +:+ file_name Upload.sample_file
     ∉ snd (Backend.upload_document
              (Backend.RagPlatform (Backend.str_of_exn Backend.failing_rag)
                 (Ok "corpora/rag-corpus-gemini") (fun _ _ => Ok tt)
                 (fun _ _ _ _ => Ok 1%Z))
              Upload.sample_file {["/tmp/notes.txt"]}).
Proof.
  apply (backend_upload_success _ Upload.sample_file {["/tmp/notes.txt"]}
           "corpora/rag-corpus-gemini" 1%Z); reflexivity.
Defined.

End BackendExtras.

(** ** Forms: metadata of an upload, deletion of a store *)

Section FormExtras.
Import Stores Forms.

Lemma form_metadata_cases (k1 v1 k2 v2 : string) :
  form_metadata k1 v1 k2 v2
  = match bool_decide (k1 <> "" /\ v1 <> ""), bool_decide (k2 <> "" /\ v2 <> "") with
    | true, true => if String.eqb k1 k2 then [(k1, v2)] else [(k1, v1); (k2, v2)]
    | true, false => [(k1, v1)]
    | false, true => [(k2, v2)]
    | false, false => []
    end.
Proof.
  unfold form_metadata.
  assert (forall k v : string,
             negb (String.eqb k "") && negb (String.eqb v "")
             = bool_decide (k <> "" /\ v <> "")) as Hboth.
  { intros k v. destruct (String.eqb_spec k "") as [Hk|Hk]; cbn [negb andb].
    { symmetry. apply bool_decide_eq_false_2. tauto. }
    destruct (String.eqb_spec v "") as [Hv|Hv]; cbn [negb andb].
    { symmetry. apply bool_decide_eq_false_2. tauto. }
    symmetry. by apply bool_decide_eq_true_2. }
  rewrite !Hboth.
  destruct (bool_decide (k1 <> "" /\ v1 <> "")), (bool_decide (k2 <> "" /\ v2 <> ""));
    reflexivity.
Qed.

(** X29.  The metadata dictionary built from the upload form has at most
    two entries with distinct keys, no entry has an empty key or an
    empty value, a pair is left out as soon as its key or its value is
    empty, and when both pairs are complete and carry the same key there
    is one entry, with the value of the second pair. *)
Theorem form_metadata_entries (k1 v1 k2 v2 : string) :
  (length (form_metadata k1 v1 k2 v2) <= 2)%nat
  /\ NoDup (form_metadata k1 v1 k2 v2).*1
  /\ (forall k v : string,
         (k, v) ∈ form_metadata k1 v1 k2 v2 ->
         k <> "" /\ v <> ""
         /\ ((k = k1 /\ v = v1 /\ k1 <> k2) \/ (k = k2 /\ v = v2)
             \/ (k = k1 /\ v = v1 /\ (k2 = "" \/ v2 = ""))))
  /\ (k1 <> "" -> v1 <> "" -> k2 <> "" -> v2 <> "" -> k1 = k2 ->
      form_metadata k1 v1 k2 v2 = [(k2, v2)])
  /\ (form_metadata k1 v1 k2 v2 = []
      <-> (k1 = "" \/ v1 = "") /\ (k2 = "" \/ v2 = "")).
Proof.
  rewrite form_metadata_cases.
  destruct (bool_decide_reflect (k1 <> "" /\ v1 <> "")) as [[Hk1 Hv1]|H1],
           (bool_decide_reflect (k2 <> "" /\ v2 <> "")) as [[Hk2 Hv2]|H2].
  - destruct (String.eqb_spec k1 k2) as [->|Hne].
    + split; [simpl; lia|]. split; [apply NoDup_singleton|].
      split.
      { intros k v [= -> ->]%list_elem_of_singleton. tauto. }
      split; [reflexivity|].
      split; [discriminate|]. tauto.
    + split; [simpl; lia|].
      split.
      { simpl. apply NoDup_cons. split; [|apply NoDup_singleton].
        rewrite list_elem_of_singleton. exact Hne. }
      split.
      { intros k v Hin. apply elem_of_cons in Hin as [[= -> ->]|Hin]; [tauto|].
        apply list_elem_of_singleton in Hin as [= -> ->]. tauto. }
      split; [tauto|]. split; [discriminate|]. tauto.
  - assert (k2 = "" \/ v2 = "") as Hempty.
    { destruct (decide (k2 = "")); [tauto|].
      destruct (decide (v2 = "")); tauto. }
    split; [simpl; lia|]. split; [apply NoDup_singleton|].
    split.
    { intros k v [= -> ->]%list_elem_of_singleton. tauto. }
    split; [tauto|]. split; [discriminate|]. tauto.
  - assert (k1 = "" \/ v1 = "") as Hempty.
    { destruct (decide (k1 = "")); [tauto|].
      destruct (decide (v1 = "")); tauto. }
    split; [simpl; lia|]. split; [apply NoDup_singleton|].
    split.
    { intros k v [= -> ->]%list_elem_of_singleton. tauto. }
    split; [tauto|]. split; [discriminate|]. tauto.
  - assert (k1 = "" \/ v1 = "") as Hempty1.
    { destruct (decide (k1 = "")); [tauto|].
      destruct (decide (v1 = "")); tauto. }
    assert (k2 = "" \/ v2 = "") as Hempty2.
    { destruct (decide (k2 = "")); [tauto|].
      destruct (decide (v2 = "")); tauto. }
    split; [simpl; lia|]. split; [apply NoDup_nil_2|].
    split.
    { intros k v Hin. by apply elem_of_nil in Hin. }
    split; [tauto|]. split; [tauto|]. tauto.
Qed.

Lemma form_metadata_entries_witness :
  form_metadata "topic" "rocq" "topic" "proofs" = [("topic", "proofs")].
Proof.
  apply (proj1 (proj2 (proj2 (proj2
           (form_metadata_entries "topic" "rocq" "topic" "proofs")))));
    try reflexivity; discriminate.
Defined.

(** X30.  The "Yes, Delete" button of the store overview.  When the
    deletion succeeds, the session no longer holds a pending
    confirmation and no longer names the deleted store as the active
    one, every other entry of the session is as before, and one success
    notice is shown.  When the deletion fails, nothing changes but for
    one error notice: the confirmation stays pending. *)
Theorem confirm_delete_yes_session
    (delete_reply : string -> bool -> list remote_store -> result (list remote_store))
    (store : store_stats) (s : state) (notices : list notice) :
  (forall held : list remote_store,
      delete_reply (stats_name store) true (stores s) = Ok held ->
      exists s' : state,
        confirm_delete_yes delete_reply store (s, notices)
        = (Ok tt, (s', notices ++ [StoreDeleted (stats_display_name store)]))
        /\ stores s' = held
        /\ session s' !! "confirm_delete_store" = None
        /\ session s' !! "store_name" <> Some (stats_name store)
        /\ (session s !! "store_name" <> Some (stats_name store) ->
            session s' !! "store_name" = session s !! "store_name")
        /\ (forall k : string,
               k <> "confirm_delete_store" -> k <> "store_name" ->
               session s' !! k = session s !! k))
  /\ (forall e : exn,
        delete_reply (stats_name store) true (stores s) = Raise e ->
        confirm_delete_yes delete_reply store (s, notices)
        = (Ok tt, (s, notices ++ [FailedToDeleteStore e]))).
Proof.
  split.
  - intros held Hreply.
    unfold confirm_delete_yes, delete_store.
    cbv [bind try_except notify modify get ret del_session]. simpl.
    rewrite Hreply. simpl.
    destruct (session s !! "confirm_delete_store") as [pending|] eqn:Hpending; simpl.
    + destruct (bool_decide_reflect
                  (delete "confirm_delete_store" (session s) !! "store_name"
                   = Some (stats_name store))) as [Hactive|Hactive]; simpl.
      * eexists. split; [reflexivity|]. simpl.
        split; [reflexivity|].
        split; [rewrite lookup_delete_ne by discriminate; apply lookup_delete_eq|].
        split; [by rewrite lookup_delete_eq|].
        split.
        { intros Hother. rewrite lookup_delete_ne in Hactive by discriminate.
          contradiction. }
        intros k Hk1 Hk2. by rewrite !lookup_delete_ne.
      * eexists. split; [reflexivity|]. simpl.
        split; [reflexivity|].
        split; [apply lookup_delete_eq|].
        split; [exact Hactive|].
        split; [intros _; by rewrite lookup_delete_ne|].
        intros k Hk1 Hk2. by rewrite lookup_delete_ne.
    + destruct (bool_decide_reflect
                  (session s !! "store_name" = Some (stats_name store)))
        as [Hactive|Hactive]; simpl.
      * eexists. split; [reflexivity|]. simpl.
        split; [reflexivity|].
        split; [by rewrite lookup_delete_ne|].
        split; [by rewrite lookup_delete_eq|].
        split; [intros Hother; contradiction|].
        intros k Hk1 Hk2. by rewrite lookup_delete_ne.
      * eexists. split; [reflexivity|]. simpl.
        split; [reflexivity|].
        split; [exact Hpending|].
        split; [exact Hactive|].
        split; [reflexivity|]. reflexivity.
  - intros e Hreply.
    unfold confirm_delete_yes, delete_store.
    cbv [bind try_except notify modify get ret del_session]. simpl.
    rewrite Hreply. simpl. by destruct s.
Qed.

Lemma confirm_delete_yes_session_witness :
  confirm_delete_yes (fun _ _ _ => Raise (RemoteError "store in use"))
    (StoreStats "fileSearchStores/docs" "docs" 0 0 0 0 0 "" None)
    (fresh_state [], [])
  = (Ok tt, (fresh_state [], [] ++ [FailedToDeleteStore (RemoteError "store in use")])).
Proof.
  apply (proj2 (confirm_delete_yes_session
                  (fun _ _ _ => Raise (RemoteError "store in use"))
                  (StoreStats "fileSearchStores/docs" "docs" 0 0 0 0 0 "" None)
                  (fresh_state []) [])).
  reflexivity.
Defined.

End FormExtras.
